(** * Polarising-Microscopic-Image-Viewer: filename metadata and viewer queries

    A shallow embedding of [scripts/make_metadata_from_filenames.py] and of
    the query logic of [scripts/streamlit_viewer.py], with the properties
    that the design document states about them.

    Conventions of the embedding.
    - A Python [str] is a [string]; a character is a code point below 256
      ([ascii]), which covers the file names of the data set.
    - A raised exception is a value of [exn] carried by [result].
    - [float(...)] of a decimal literal is the exact rational that the
      literal denotes ([Q], reduced); the rounding to a binary double is not
      part of the embedding.
    - Widgets of the viewer return what the user selected: they are fields
      of a [Sidebar] record passed to the code that reads them. *)

From Stdlib Require Import String Ascii List Bool Arith Lia.
From Stdlib Require Import QArith DecimalString OrdersEx.
From Stdlib Require Import Permutation Sorted.
Import ListNotations.

Local Open Scope list_scope.
Local Open Scope string_scope.
Local Open Scope nat_scope.

(** ** Python built-ins used by the scripts *)

Module Py.

(** Exceptions that the modelled code raises. *)
Inductive exn : Type :=
| ValueError (msg : string)
| KeyError (key : string).

Inductive result (A : Type) : Type :=
| Ok (a : A)
| Raise (e : exn).

Arguments Ok {A} a.
Arguments Raise {A} e.

(** [len(s)], [str(n)] for a non-negative [int]. *)
Definition len {A : Type} (l : list A) : nat := List.length l.

Definition str_of_nat (n : nat) : string :=
  NilEmpty.string_of_uint (Nat.to_uint n).

(** Character classes. [str.isspace] and the [\s] of [re] agree on
    code points below 256: TAB..CR, FS..US, SPACE, NEL and NBSP. *)
Definition code (c : ascii) : nat := nat_of_ascii c.

Definition is_space (c : ascii) : bool :=
  let n := code c in
  ((9 <=? n) && (n <=? 13)) || ((28 <=? n) && (n <=? 32))
  || (n =? 133) || (n =? 160).

Definition is_digit (c : ascii) : bool :=
  let n := code c in (48 <=? n) && (n <=? 57).

Definition is_upper (c : ascii) : bool :=
  let n := code c in
  ((65 <=? n) && (n <=? 90))
  || ((192 <=? n) && (n <=? 222) && negb (n =? 215)).

(** [str.lower]. *)
Definition lower_char (c : ascii) : ascii :=
  if is_upper c then ascii_of_nat (code c + 32) else c.

Fixpoint lower (s : string) : string :=
  match s with
  | EmptyString => EmptyString
  | String c s' => String (lower_char c) (lower s')
  end.

(** [str.strip()] with no argument. *)
Fixpoint lstrip (s : string) : string :=
  match s with
  | String c s' => if is_space c then lstrip s' else s
  | EmptyString => EmptyString
  end.

Fixpoint rstrip (s : string) : string :=
  match s with
  | EmptyString => EmptyString
  | String c s' =>
      match rstrip s' with
      | EmptyString => if is_space c then EmptyString else String c EmptyString
      | r => String c r
      end
  end.

Definition strip (s : string) : string := rstrip (lstrip s).

(** [s.split(sep)] for a one-character separator: never the empty list,
    [''.split('_') == ['']]. *)
Fixpoint split (sep : ascii) (s : string) : list string :=
  match s with
  | EmptyString => [EmptyString]
  | String c s' =>
      if Ascii.eqb c sep then EmptyString :: split sep s'
      else match split sep s' with
           | t :: ts => String c t :: ts
           | [] => [String c EmptyString]
           end
  end.

(** [sep.join(l)]. *)
Fixpoint join (sep : string) (l : list string) : string :=
  match l with
  | [] => EmptyString
  | [t] => t
  | t :: ts => t ++ sep ++ join sep ts
  end.

(** [s.replace(a, b)] for one-character [a] and [b]. *)
Fixpoint replace (a b : ascii) (s : string) : string :=
  match s with
  | EmptyString => EmptyString
  | String c s' => String (if Ascii.eqb c a then b else c) (replace a b s')
  end.

(** [s.startswith(p)]. *)
Definition startswith (p s : string) : bool := String.prefix p s.

(** [l[i]] for [0 <= i < len(l)] and [l[-k]] for [1 <= k <= len(l)]; the
    callers only index inside the list. *)
Definition item (l : list string) (i : nat) : string := nth i l EmptyString.

Definition item_back (l : list string) (k : nat) : string :=
  nth (len l - k) l EmptyString.

(** [l[i:-k]]. *)
Definition slice_to_back (l : list string) (i k : nat) : list string :=
  skipn i (firstn (len l - k) l).

(** [s.rfind(c)] for a character: the index of its last occurrence. *)
Fixpoint rfind (c : ascii) (s : string) : option nat :=
  match s with
  | EmptyString => None
  | String d s' =>
      match rfind c s' with
      | Some i => Some (S i)
      | None => if Ascii.eqb d c then Some 0 else None
      end
  end.

(** [x in l] for a list or set of strings. *)
Definition mem (x : string) (l : list string) : bool :=
  existsb (String.eqb x) l.

(** [pathlib.PurePath] (POSIX flavour, as of Python 3.12): [name] is the
    last component that is neither empty nor ["."]; [suffix] and [stem]
    cut [name] at its last dot when that dot is neither its first nor its
    last character. *)
Definition path_name (p : string) : string :=
  last (filter (fun x => negb (String.eqb x "") && negb (String.eqb x "."))
               (split "/" p)) "".

Definition dot_index (name : string) : option nat :=
  match rfind "." name with
  | Some i => if (0 <? i) && (i <? String.length name - 1) then Some i else None
  | None => None
  end.

Definition suffix (p : string) : string :=
  let name := path_name p in
  match dot_index name with
  | Some i => substring i (String.length name - i) name
  | None => ""
  end.

Definition stem (p : string) : string :=
  let name := path_name p in
  match dot_index name with
  | Some i => substring 0 i name
  | None => name
  end.

(** [sorted(l)] on strings and, below, on rows: a stable sort. *)
Section Sort.
Context {A : Type} (le : A -> A -> bool).

Fixpoint insert (x : A) (l : list A) : list A :=
  match l with
  | [] => [x]
  | y :: l' => if le x y then x :: l else y :: insert x l'
  end.

Fixpoint sort (l : list A) : list A :=
  match l with
  | [] => []
  | x :: l' => insert x (sort l')
  end.
End Sort.

Definition sorted (l : list string) : list string := sort String.leb l.

(** [float(s)] on the decimal literals [digits] and [digits.digits]; any
    other text is outside this fragment of the [float] syntax ([None]). *)
Definition digit_value (c : ascii) : Z := Z.of_nat (code c - 48).

Fixpoint digits_value (acc : Z) (s : string) : Z :=
  match s with
  | EmptyString => acc
  | String c s' => digits_value (acc * 10 + digit_value c)%Z s'
  end.

Fixpoint all_chars (p : ascii -> bool) (s : string) : bool :=
  match s with
  | EmptyString => true
  | String c s' => p c && all_chars p s'
  end.

Definition is_digits (s : string) : bool :=
  negb (String.eqb s "") && all_chars is_digit s.

Definition float_of_str (s : string) : option Q :=
  match split "." s with
  | [i] =>
      if is_digits i then Some (inject_Z (digits_value 0 i)) else None
  | [i; f] =>
      if is_digits i && is_digits f
      then Some (Qred (Qmake (digits_value 0 (i ++ f))
                             (Z.to_pos (10 ^ Z.of_nat (String.length f)))))
      else None
  | _ => None
  end.

End Py.

(** ** The fragment of Python's [re] used by the scripts

    A backtracking matcher in continuation-passing style: alternatives are
    tried in the order of [re] (greedy repetition, left alternative first),
    groups record the text they consumed, the newest binding first. *)

Module Re.

Inductive regex : Type :=
| Eps
| Class (p : ascii -> bool)
| Cat (r1 r2 : regex)
| Alt (r1 r2 : regex)
| Star (r : regex)
| Group (i : nat) (r : regex).

(** [r+], [r?], a literal character, and the classes of the patterns. *)
Definition Plus (r : regex) : regex := Cat r (Star r).
Definition Opt (r : regex) : regex := Alt r Eps.
Definition Chr (c : ascii) : regex := Class (Ascii.eqb c).
Definition space : regex := Class Py.is_space.
Definition digit : regex := Class Py.is_digit.
Definition any_but_newline : regex :=
  Class (fun c => negb (Ascii.eqb c "010")).

Definition captures : Type := list (nat * string).

Fixpoint lookup (i : nat) (c : captures) : option string :=
  match c with
  | [] => None
  | (j, g) :: c' => if j =? i then Some g else lookup i c'
  end.

(** The text consumed between the input [s] and the rest [s'] of it. *)
Definition consumed (s s' : string) : string :=
  substring 0 (String.length s - String.length s') s.

Section Run.
Context {A : Type}.

(** The iterations of [r*] on the matcher [step] of [r], greedy, with one
    unit of fuel per character: an iteration that consumes nothing is not
    repeated. *)
Fixpoint star_loop
    (step : string -> captures -> (string -> captures -> option A) -> option A)
    (k : string -> captures -> option A)
    (n : nat) (s : string) (c : captures) : option A :=
  match n with
  | 0 => k s c
  | S n' =>
      match step s c (fun s' c' =>
              if String.length s' <? String.length s
              then star_loop step k n' s' c' else None) with
      | Some a => Some a
      | None => k s c
      end
  end.

Fixpoint run (r : regex) (s : string) (c : captures)
    (k : string -> captures -> option A) : option A :=
  match r with
  | Eps => k s c
  | Class p =>
      match s with
      | String a s' => if p a then k s' c else None
      | EmptyString => None
      end
  | Cat r1 r2 => run r1 s c (fun s' c' => run r2 s' c' k)
  | Alt r1 r2 =>
      match run r1 s c k with
      | Some a => Some a
      | None => run r2 s c k
      end
  | Star r' => star_loop (run r') k (String.length s) s c
  | Group i r' => run r' s c (fun s' c' => k s' ((i, consumed s s') :: c'))
  end.
End Run.

(** [$] without [re.MULTILINE]: the end of the text, or just before a
    newline that ends it. *)
Definition at_end (s : string) : bool :=
  String.eqb s "" || String.eqb s (String "010" "").

(** [re.match(r"^...$", s)]: anchored at the start; the result is the
    capture store of the first successful alternative. *)
Definition match_anchored (r : regex) (s : string) : option captures :=
  run r s [] (fun s' c => if at_end s' then Some c else None).

(** [re.search] as a test, for [Series.str.contains]. *)
Fixpoint search (r : regex) (s : string) : bool :=
  match run r s [] (fun _ _ => Some tt) with
  | Some _ => true
  | None =>
      match s with
      | EmptyString => false
      | String _ s' => search r s'
      end
  end.

(** Compilation of a pattern whose only special character is the dot.
    A pattern that uses any other special character of [re] is outside the
    embedded fragment ([None]). *)
Definition is_special (c : ascii) : bool :=
  existsb (Ascii.eqb c)
    ["\"; "^"; "$"; "*"; "+"; "?"; "{"; "}"; "["; "]"; "("; ")"; "|"]%char.

Fixpoint compile (pat : string) : option regex :=
  match pat with
  | EmptyString => Some Eps
  | String a pat' =>
      if is_special a then None
      else match compile pat' with
           | Some r =>
               Some (Cat (if Ascii.eqb a "." then any_but_newline else Chr a) r)
           | None => None
           end
  end.

End Re.


(** ** [make_metadata_from_filenames.py] *)

Module MakeMetadata.
Import Py.

Definition DEFAULT_EXTS : list string :=
  [".png"; ".jpg"; ".jpeg"; ".tif"; ".tiff"; ".bmp"; ".gif"; ".webp"; ".dcm"].

(** The dictionary returned by [parse_filename]; [magnification_value] is
    [None] where the code stores the empty string. *)
Module Rec.
Record t : Type := mk {
  method : string;
  location : string;
  sample : string;
  mode : string;
  magnification : string;
  magnification_value : option Q;
  ext : string
}.
End Rec.

(** One row of [metadata.csv], the dictionary [rec_out] of [main]. *)
Module Row.
Record t : Type := mk {
  filename : string;
  method : string;
  location : string;
  sample : string;
  mode : string;
  magnification : string;
  magnification_value : option Q;
  ext : string;
  rel_path : string
}.
End Row.

(** [r"^\s*([0-9]+(\.[0-9]+)?)\s*[xX]?\s*$"]; the closing [$] is the
    continuation of [Re.match_anchored]. *)
Definition is_x (c : ascii) : bool := Ascii.eqb c "x" || Ascii.eqb c "X".

Definition mag_number : Re.regex :=
  Re.Cat (Re.Plus Re.digit)
         (Re.Opt (Re.Group 2 (Re.Cat (Re.Chr ".") (Re.Plus Re.digit)))).

Definition mag_tail : Re.regex :=
  Re.Cat (Re.Star Re.space) (Re.Cat (Re.Opt (Re.Class is_x)) (Re.Star Re.space)).

Definition mag_re : Re.regex :=
  Re.Cat (Re.Star Re.space) (Re.Cat (Re.Group 1 mag_number) mag_tail).

(** Lines 53 to 61: the numeric value of the raw magnification text. A
    [float] that raises leaves the value empty. *)
Definition mag_value_of (mag_text : string) : option Q :=
  let tmp := replace "_" "." mag_text in
  match Re.match_anchored mag_re tmp with
  | Some m =>
      match Re.lookup 1 m with
      | Some g =>
          match float_of_str g with
          | Some v => Some v
          | None => None
          end
      | None => None
      end
  | None => None
  end.

Definition too_few_tokens (n : nat) (stem : string) : string :=
  "Expected at least 5 tokens separated by '_' but got "
  ++ str_of_nat n ++ ": " ++ stem.

Definition parse_filename (name : string) : result Rec.t :=
  let ext := suffix name in
  let stem := stem name in
  let parts := split "_" stem in
  if len parts <? 5 then Raise (ValueError (too_few_tokens (len parts) stem))
  else
    let method := item parts 0 in
    let location := item parts 1 in
    let '(sample, mode, magnification) :=
      if len parts =? 5
      then (item parts 2, item parts 3, item parts 4)
      else (join "_" (slice_to_back parts 2 2),
            item_back parts 2, item_back parts 1) in
    let mag_text := magnification in
    Ok (Rec.mk method location sample mode mag_text
               (mag_value_of mag_text) (lower ext)).

(** [str(e)] for the exceptions of the embedding ([KeyError] shows the
    [repr] of its key). *)
Definition exn_str (e : exn) : string :=
  match e with
  | ValueError msg => msg
  | KeyError key => "'" ++ key ++ "'"
  end.

(** A directory entry: its name and whether it is a regular file. *)
Record DirEntry : Type := { name : string; is_file : bool }.

Definition normalize_exts (args_ext : list string) : list string :=
  map (fun e => if startswith "." e then lower e else "." ++ lower e) args_ext.

(** The state of the loop of [main]: [rows] and [errors]. *)
Definition Table : Type := (list Row.t * list (string * string))%type.

Definition loop_body (exts : list string) (st : Table) (p : DirEntry) : Table :=
  let '(rows, errors) := st in
  if negb (is_file p) then st
  else if negb (mem (lower (suffix (name p))) exts) then st
  else
    match parse_filename (name p) with
    | Ok rec =>
        let rec_out :=
          Row.mk (name p) (Rec.method rec) (Rec.location rec) (Rec.sample rec)
                 (Rec.mode rec) (Rec.magnification rec)
                 (Rec.magnification_value rec) (Rec.ext rec) (name p) in
        ((rows ++ [rec_out])%list, errors)
    | Raise e => (rows, (errors ++ [(name p, exn_str e)])%list)
    end.

(** The [for] loop over a listing, from empty [rows] and [errors]. *)
Definition scan (exts : list string) (listing : list DirEntry) : Table :=
  fold_left (loop_body exts) listing ([], []).

(** [sorted(root.iterdir())]: the entries of one directory are ordered
    by their names. The order embedded is that of [PurePosixPath], the
    code-point order; [PureWindowsPath] compares names folded to lower
    case. *)
Definition entry_le (p q : DirEntry) : bool := String.leb (name p) (name q).

Definition sorted_entries (iterdir : list DirEntry) : list DirEntry :=
  sort entry_le iterdir.

(** [main] without its argument parsing and its output: the rows written to
    the CSV file and the skipped files that are printed. *)
Definition main (args_ext : list string) (iterdir : list DirEntry) : Table :=
  scan (normalize_exts args_ext) (sorted_entries iterdir).

(** The lines that [main] prints: the notice of an empty table, the line
    on the rows written to [csv_path], and the skipped files, of which at
    most twenty are listed. *)
Definition skipped_line (e : string * string) : string :=
  "  - " ++ fst e ++ ": " ++ snd e.

Definition report (csv_path : string) (t : Table) : list string :=
  let '(rows, errors) := t in
  let notice :=
    match rows with
    | [] => ["No matching files found. Check your folder or --ext filters."]
    | _ :: _ => []
    end in
  let wrote := "Wrote " ++ str_of_nat (len rows) ++ " rows to " ++ csv_path in
  let skipped := "Skipped " ++ str_of_nat (len errors) ++ " file(s):" in
  let more := "  ... and " ++ str_of_nat (len errors - 20) ++ " more" in
  app notice
      (wrote ::
       match errors with
       | [] => []
       | _ :: _ =>
           skipped ::
           app (map skipped_line (firstn 20 errors))
               (if 20 <? len errors then [more] else [])
       end).

End MakeMetadata.

(** ** [streamlit_viewer.py] *)

Module Viewer.
Import Py.

(** *** [load_metadata]

    The frame read by [pd.read_csv]: the column labels in file order, each
    with its cells. What pandas does to a cell ([pd.NA], [pd.to_numeric],
    [astype(str)], the [full_path] format) is left open. Labels are taken
    to be distinct after normalisation, so that [df[c]] is one column. *)

Section Load.
Context {cell : Type}.
Variable NA : cell.
Variable to_numeric : cell -> cell.
Variable astype_str : cell -> cell.
Variable full_path_of : cell -> cell.

Record Frame : Type := { nrows : nat; cols : list (string * list cell) }.

Definition columns (df : Frame) : list string := map fst (cols df).

(** [df[key]], which raises [KeyError] on an unknown label. The column is
    the one with that label: in a frame with two equal labels pandas
    returns a frame of both, which is outside the embedding, and what is
    proved of a loaded frame assumes distinct labels. *)
Fixpoint find_col (key : string) (l : list (string * list cell))
    : option (list cell) :=
  match l with
  | [] => None
  | (c, v) :: l' => if String.eqb c key then Some v else find_col key l'
  end.

Definition getitem (key : string) (df : Frame) : result (list cell) :=
  match find_col key (cols df) with
  | Some v => Ok v
  | None => Raise (KeyError key)
  end.

(** [df[key] = v]: replaces the column, or appends it as the last one. *)
Fixpoint set_col (key : string) (v : list cell) (l : list (string * list cell))
    : list (string * list cell) :=
  match l with
  | [] => [(key, v)]
  | (c, w) :: l' =>
      if String.eqb c key then (c, v) :: l' else (c, w) :: set_col key v l'
  end.

Definition setitem (key : string) (v : list cell) (df : Frame) : Frame :=
  {| nrows := nrows df; cols := set_col key v (cols df) |}.

(** [df.columns = [f(c) for c in df.columns]]. *)
Definition rename (f : string -> string) (df : Frame) : Frame :=
  {| nrows := nrows df; cols := map (fun cv => (f (fst cv), snd cv)) (cols df) |}.

Definition required : list string :=
  ["filename"; "method"; "location"; "sample"; "mode"; "magnification";
   "ext"; "rel_path"].

(** [required - set(df.columns)]. *)
Definition set_minus (a b : list string) : list string :=
  filter (fun x => negb (mem x b)) a.

(** [str(l)] for a list of strings without quotes or backslashes. *)
Definition repr_list (l : list string) : string :=
  "[" ++ join ", " (map (fun x => "'" ++ x ++ "'") l) ++ "]".

Definition missing_columns_message (missing : list string) : string :=
  "metadata.csv is missing required columns: " ++ repr_list (sorted missing).

(** How a run of [load_metadata] ends: the frame is returned, or
    [st.error(msg); st.stop()] halts the script, or an exception escapes. *)
Inductive outcome : Type :=
| Loaded (df : Frame)
| Stopped (error : string)
| Raised (e : exn).

Definition stringified : list string :=
  ["method"; "location"; "sample"; "mode"; "magnification"; "filename";
   "ext"; "rel_path"].

Fixpoint stringify (cs : list string) (df : Frame) : result Frame :=
  match cs with
  | [] => Ok df
  | c :: cs' =>
      match getitem c df with
      | Ok v => stringify cs' (setitem c (map astype_str v) df)
      | Raise e => Raise e
      end
  end.

(** The coercion of [magnification_value], under its guard. *)
Definition coerce_value (df : Frame) : result Frame :=
  if mem "magnification_value" (columns df)
  then match getitem "magnification_value" df with
       | Ok v => Ok (setitem "magnification_value" (map to_numeric v) df)
       | Raise e => Raise e
       end
  else Ok df.

Definition load_metadata (df : Frame) : outcome :=
  match getitem "rel_path" df with
  | Raise e => Raised e
  | Ok rel =>
      let df := setitem "full_path" (map full_path_of rel) df in
      let df := rename (fun c => lower (strip c)) df in
      let missing := set_minus required (columns df) in
      match missing with
      | _ :: _ => Stopped (missing_columns_message missing)
      | [] =>
          let df :=
            if negb (mem "magnification_value" (columns df))
            then setitem "magnification_value" (repeat NA (nrows df)) df
            else df in
          match coerce_value df with
          | Raise e => Raised e
          | Ok df =>
              match stringify stringified df with
              | Ok df => Loaded df
              | Raise e => Raised e
              end
          end
      end
  end.

End Load.

Arguments Frame : clear implicits.
Arguments outcome : clear implicits.

(** *** Rows of the loaded frame

    After [load_metadata] every key column holds strings, so a row is a
    record of strings (a missing cell has become the text it prints as). *)
Module Row.
Record t : Type := mk {
  filename : string;
  method : string;
  location : string;
  sample : string;
  mode : string;
  magnification : string;
  magnification_value : option Q;
  ext : string;
  rel_path : string;
  full_path : string
}.
End Row.

Definition DataFrame : Type := list Row.t.

(** What the user has entered in the widgets: the text of
    [st.sidebar.text_input], and for [multiselect] and [selectbox] the
    selection, given the label and the options offered. *)
Record Sidebar : Type := {
  text_input : string;
  multiselect : string -> list string -> list string;
  selectbox : string -> list string -> string
}.

(** [Series.unique()]: the distinct values in order of first appearance.
    [dropna()] removes nothing from a column of strings. *)
Fixpoint unique (l : list string) : list string :=
  match l with
  | [] => []
  | x :: l' => x :: filter (fun y => negb (String.eqb y x)) (unique l')
  end.

Definition distinct_sorted (col : Row.t -> string) (df : DataFrame)
    : list string :=
  sorted (unique (map col df)).

(** *** [filtered_df]

    [Series.str.contains(key)] keeps its default [regex=True]: [key] is
    compiled as a pattern and searched for. The result is [None] when the
    pattern is outside the fragment that [Re.compile] embeds. *)
Definition text_mask (key : string) : option (Row.t -> bool) :=
  match Re.compile key with
  | Some r =>
      Some (fun row => Re.search r (lower (Row.sample row))
                       || Re.search r (lower (Row.filename row)))
  | None => None
  end.

Definition facet_filters (ui : Sidebar) (df : DataFrame) : DataFrame :=
  let methods := distinct_sorted Row.method df in
  let locations := distinct_sorted Row.location df in
  let modes := distinct_sorted Row.mode df in
  let sel_methods := multiselect ui "Method" methods in
  let sel_locations := multiselect ui "Location" locations in
  let sel_modes := multiselect ui "Mode" modes in
  let df :=
    filter (fun row => mem (Row.method row) sel_methods
                       && mem (Row.location row) sel_locations
                       && mem (Row.mode row) sel_modes) df in
  let mags_text := distinct_sorted Row.magnification df in
  let sel_mags_text := multiselect ui "magnification" mags_text in
  filter (fun row => mem (Row.magnification row) sel_mags_text) df.

Definition filtered_df (ui : Sidebar) (df : DataFrame) : option DataFrame :=
  let q := text_input ui in
  if negb (String.eqb (strip q) "") then
    let key := lower (strip q) in
    match text_mask key with
    | Some keep => Some (facet_filters ui (filter keep df))
    | None => None
    end
  else Some (facet_filters ui df).

(** *** The comparison view of [main] *)

Inductive view_mode : Type := BySample | ByMethod.

(** The options of the "Compare across" select box. *)
Inductive axis : Type := Method | Location | Sample | Mode | Magnification.

Definition column (a : axis) : Row.t -> string :=
  match a with
  | Method => Row.method
  | Location => Row.location
  | Sample => Row.sample
  | Mode => Row.mode
  | Magnification => Row.magnification
  end.

(** [df.sort_values(by)]: a stable sort on the columns [by], compared as
    text, the first column first. *)
Fixpoint rows_le (by_ : list (Row.t -> string)) (r1 r2 : Row.t) : bool :=
  match by_ with
  | [] => true
  | k :: ks =>
      match String.compare (k r1) (k r2) with
      | Lt => true
      | Eq => rows_le ks r1 r2
      | Gt => false
      end
  end.

Definition sort_values (by_ : list (Row.t -> string)) (df : DataFrame)
    : DataFrame :=
  sort (rows_le by_) df.

(** [df.groupby(col)], iterated: one pair per distinct key, the keys in
    ascending order, each with its rows in the order of [df]. *)
Definition groupby (col : Row.t -> string) (df : DataFrame)
    : list (string * DataFrame) :=
  map (fun g => (g, filter (fun row => String.eqb (col row) g) df))
      (distinct_sorted col df).

(** [df[df[pinned] == choice].sort_values([group_axis, "filename"])] and
    the groups that the [for] loop hands to [grid_show]. *)
Definition subset (pinned : Row.t -> string) (choice : string)
    (group_axis : axis) (df : DataFrame) : DataFrame :=
  sort_values [column group_axis; Row.filename]
              (filter (fun row => String.eqb (pinned row) choice) df).

Definition groups (pinned : Row.t -> string) (choice : string)
    (group_axis : axis) (df : DataFrame) : list (string * DataFrame) :=
  groupby (column group_axis) (subset pinned choice group_axis df).

(** What the selection part of [main] shows: the groups, or the notice
    ["No data matches your filters."] followed by [st.stop()]. *)
Inductive shown : Type :=
| Groups (gs : list (string * DataFrame))
| NoData (info : string).

Definition main (ui : Sidebar) (mode : view_mode) (group_axis : axis)
    (df : DataFrame) : shown :=
  match mode with
  | BySample =>
      let options := distinct_sorted Row.sample df in
      match options with
      | [] => NoData "No data matches your filters."
      | _ :: _ =>
          let sample_choice :=
            selectbox ui "Choose a Sample to compare across" options in
          Groups (groups Row.sample sample_choice group_axis df)
      end
  | ByMethod =>
      let options := distinct_sorted Row.method df in
      match options with
      | [] => NoData "No data matches your filters."
      | _ :: _ =>
          let method_choice :=
            selectbox ui "Choose a Method to compare across" options in
          Groups (groups Row.method method_choice group_axis df)
      end
  end.

(** *** [grid_show]

    The page elements that [grid_show] puts in the columns made by
    [st.columns(images_per_row)]. Fetching and decoding an image is left
    open: [fetch url] is the image, or the text of the exception. The
    warning sign and the bullet of the captions lie outside the characters
    of the embedding and are parameters. [st.columns] refuses a number of
    columns that is not positive ([None]). *)
Section Grid.
Context {image : Type}.
Variable fetch : string -> image + string.
Variable warning_sign : string.
Variable bullet : string.

Inductive element : Type :=
| Picture (img : image)
| Warning (text : string)
| Markdown (html : string).

Definition newline : string := String "010" "".

Definition span_bold (text : string) : string :=
  "<span style='font-size:20px; color:gray;'>**" ++ text ++ "**</span>".

Definition caption (caption_style : string) (row : Row.t) : string :=
  if String.eqb caption_style "Filename" then span_bold (Row.filename row)
  else if String.eqb caption_style "Short metadata" then
    span_bold (Row.method row ++ " | " ++ Row.sample row ++ " | "
               ++ Row.magnification row)
  else
    span_bold ("Method: " ++ Row.method row ++ " " ++ bullet
               ++ " Location: " ++ Row.location row ++ " " ++ bullet ++ " "
               ++ "Sample: " ++ Row.sample row ++ " " ++ bullet
               ++ " Mode: " ++ Row.mode row ++ " " ++ bullet ++ " "
               ++ "Mag: " ++ Row.magnification row).

(** The body of the loop for one row: the picture or the warning, then
    the caption if captions are shown. *)
Definition could_not_open (row : Row.t) (err : string) : string :=
  warning_sign ++ " Could not open: " ++ path_name (Row.full_path row)
  ++ newline ++ newline ++ err.

Definition cell (show_captions : bool) (caption_style : string) (row : Row.t)
    : list element :=
  app (match fetch (Row.full_path row) with
       | inl img => [Picture img]
       | inr err => [Warning (could_not_open row err)]
       end)
      (if show_captions then [Markdown (caption caption_style row)] else []).

(** [with cols[j]:] followed by the elements [xs]. *)
Fixpoint append_at (j : nat) (xs : list element) (cols : list (list element))
    : list (list element) :=
  match cols, j with
  | [], _ => []
  | c :: cs, 0 => (c ++ xs)%list :: cs
  | c :: cs, S j' => c :: append_at j' xs cs
  end.

(** [enumerate(rows)]. *)
Definition enumerate {A : Type} (l : list A) : list (nat * A) :=
  combine (seq 0 (length l)) l.

Definition grid_show (group_rows : DataFrame) (images_per_row : nat)
    (show_captions : bool) (caption_style : string)
    : option (list (list element)) :=
  if images_per_row =? 0 then None
  else
    Some (fold_left
            (fun cols ir =>
               append_at (fst ir mod images_per_row)
                         (cell show_captions caption_style (snd ir)) cols)
            (enumerate group_rows)
            (repeat [] images_per_row)).

End Grid.

Arguments element : clear implicits.


End Viewer.

(** ** The design document's wording, as definitions

    What a pattern matches, independently of the order in which the
    matcher tries alternatives; the grammar of a magnification text; the
    plain substring test; the middle tokens of a file name. *)

Module Doc.
Import Py.

(** [matches r s c c']: the text [s] is matched by [r], which turns the
    capture store [c] into [c']. *)
Inductive matches : Re.regex -> string -> Re.captures -> Re.captures -> Prop :=
| MEps c : matches Re.Eps "" c c
| MClass p a c : p a = true -> matches (Re.Class p) (String a "") c c
| MCat r1 r2 s1 s2 c c1 c2 :
    matches r1 s1 c c1 -> matches r2 s2 c1 c2 ->
    matches (Re.Cat r1 r2) (s1 ++ s2) c c2
| MAltL r1 r2 s c c' : matches r1 s c c' -> matches (Re.Alt r1 r2) s c c'
| MAltR r1 r2 s c c' : matches r2 s c c' -> matches (Re.Alt r1 r2) s c c'
| MStar0 r c : matches (Re.Star r) "" c c
| MStarS r s1 s2 c c1 c2 :
    s1 <> "" -> matches r s1 c c1 -> matches (Re.Star r) s2 c1 c2 ->
    matches (Re.Star r) (s1 ++ s2) c c2
| MGroup i r s c c' : matches r s c c' -> matches (Re.Group i r) s c ((i, s) :: c').

(** A matcher [step] finds only, and finds some of, what [r] matches. *)
Definition sound_step {A : Type} (r : Re.regex)
    (step : string -> Re.captures -> (string -> Re.captures -> option A)
            -> option A) : Prop :=
  forall s c k a, step s c k = Some a ->
    exists s1 s2 c', s = s1 ++ s2 /\ matches r s1 c c' /\ k s2 c' = Some a.

Definition complete_step {A : Type} (r : Re.regex)
    (step : string -> Re.captures -> (string -> Re.captures -> option A)
            -> option A) : Prop :=
  forall s1 c c', matches r s1 c c' ->
    forall s2 k a, k s2 c' = Some a -> exists a', step (s1 ++ s2) c k = Some a'.

(** The longest prefix of characters in a class, and the rest. *)
Fixpoint span (p : ascii -> bool) (s : string) : string * string :=
  match s with
  | String a s' =>
      if p a then let '(u, v) := span p s' in (String a u, v)
      else (EmptyString, s)
  | EmptyString => (EmptyString, EmptyString)
  end.

Definition head_outside (p : ascii -> bool) (s : string) : Prop :=
  match s with
  | String a _ => p a = false
  | EmptyString => True
  end.

Definition all_space (s : string) : Prop := all_chars is_space s = true.

(** An integer-or-decimal numeric literal. *)
Definition numeric_literal (g : string) : Prop :=
  exists i, is_digits i = true /\
    (g = i \/ exists f, is_digits f = true /\ g = i ++ "." ++ f).

(** The texts that the pattern of [parse_filename] accepts: optional
    whitespace, a numeric literal [g], optional whitespace, an optional [x]
    in either case, optional whitespace, nothing else. *)
Definition mag_grammar (tmp g : string) : Prop :=
  exists w1 w2 x w3,
    tmp = w1 ++ g ++ w2 ++ x ++ w3 /\
    all_space w1 /\ numeric_literal g /\ all_space w2 /\
    (x = "" \/ x = "x" \/ x = "X") /\ all_space w3.

(** The grammar in the words of the design document: optional surrounding
    whitespace, a numeric literal [g], an optional trailing [x] in either
    case, nothing else; and the same as a pattern. *)
Definition claimed_grammar (tmp g : string) : Prop :=
  exists w1 x w3,
    tmp = w1 ++ g ++ x ++ w3 /\
    all_space w1 /\ numeric_literal g /\
    (x = "" \/ x = "x" \/ x = "X") /\ all_space w3.

Definition claimed_re : Re.regex :=
  Re.Cat (Re.Star Re.space)
         (Re.Cat (Re.Group 1 MakeMetadata.mag_number)
                 (Re.Cat (Re.Opt (Re.Class MakeMetadata.is_x))
                         (Re.Star Re.space))).

(** A boolean order, as a relation. *)
Definition holds {A : Type} (le : A -> A -> bool) (x y : A) : Prop :=
  le x y = true.

(** The characters of a numeric literal. *)
Definition digit_or_dot (a : ascii) : bool := is_digit a || Ascii.eqb a ".".

(** [key] occurs in [s] as a substring. *)
Fixpoint is_substring (key s : string) : bool :=
  String.prefix key s ||
  match s with
  | String _ s' => is_substring key s'
  | EmptyString => false
  end.

(** The separator-delimited tokens of a file name's stem, and those
    strictly between position 1 and the last two. *)
Definition tokens (name : string) : list string := split "_" (stem name).

Definition middle (l : list string) : list string :=
  map (fun i => nth i l "") (seq 2 (len l - 4)).

(** The table of a listing, entry by entry: an entry is considered when it
    is a file whose extension is allowed; a considered entry gives a record
    or a pair of its name and the reason of the failure. *)
Definition considered (exts : list string) (p : MakeMetadata.DirEntry) : bool :=
  MakeMetadata.is_file p
  && mem (lower (suffix (MakeMetadata.name p))) exts.

Definition record_of (p : MakeMetadata.DirEntry) : list MakeMetadata.Row.t :=
  match MakeMetadata.parse_filename (MakeMetadata.name p) with
  | Ok rec =>
      [MakeMetadata.Row.mk (MakeMetadata.name p)
         (MakeMetadata.Rec.method rec) (MakeMetadata.Rec.location rec)
         (MakeMetadata.Rec.sample rec) (MakeMetadata.Rec.mode rec)
         (MakeMetadata.Rec.magnification rec)
         (MakeMetadata.Rec.magnification_value rec)
         (MakeMetadata.Rec.ext rec) (MakeMetadata.name p)]
  | Raise _ => []
  end.

Definition failure_of (p : MakeMetadata.DirEntry) : list (string * string) :=
  match MakeMetadata.parse_filename (MakeMetadata.name p) with
  | Ok _ => []
  | Raise e => [(MakeMetadata.name p, MakeMetadata.exn_str e)]
  end.

Definition records (exts : list string) (listing : list MakeMetadata.DirEntry)
    : list MakeMetadata.Row.t :=
  flat_map record_of (filter (considered exts) listing).

Definition failures (exts : list string) (listing : list MakeMetadata.DirEntry)
    : list (string * string) :=
  flat_map failure_of (filter (considered exts) listing).

(** The folder of the scenario: three files. *)
Definition scenario : list MakeMetadata.DirEntry :=
  [ {| MakeMetadata.name := "PCM_BIU_glassLube_NA_10x.jpg";
       MakeMetadata.is_file := true |};
    {| MakeMetadata.name := "DIC_LAB_foo_POL_20x.png";
       MakeMetadata.is_file := true |};
    {| MakeMetadata.name := "bad.jpg"; MakeMetadata.is_file := true |} ].


(** The column that a view mode pins. *)
Definition pinned_column (mode : Viewer.view_mode) : Viewer.Row.t -> string :=
  match mode with
  | Viewer.BySample => Viewer.Row.sample
  | Viewer.ByMethod => Viewer.Row.method
  end.

(** The rows of a frame whose pinned column holds the chosen value. *)
Definition restricted (mode : Viewer.view_mode) (choice : string)
    (df : Viewer.DataFrame) : Viewer.DataFrame :=
  filter (fun r => String.eqb (pinned_column mode r) choice) df.


(** A user who leaves every selection at its default (all the options),
    and types [q] in the search box. *)
Definition searching (q : string) : Viewer.Sidebar :=
  {| Viewer.text_input := q;
     Viewer.multiselect := fun _ options => options;
     Viewer.selectbox := fun _ options => hd "" options |}.

(** A key made of ordinary characters: no special character of [re]. *)
Definition ordinary (a : ascii) : bool :=
  negb (Re.is_special a) && negb (Ascii.eqb a ".").

(** The conjunction of the five facets, for given selections. *)
Definition facets (keep : Viewer.Row.t -> bool)
    (sel_methods sel_locations sel_modes sel_mags : list string)
    (row : Viewer.Row.t) : bool :=
  keep row
  && (mem (Viewer.Row.method row) sel_methods
      && mem (Viewer.Row.location row) sel_locations
      && mem (Viewer.Row.mode row) sel_modes)
  && mem (Viewer.Row.magnification row) sel_mags.

(** A table of two images of one method, with samples [mix125] and
    [mix1.5]. *)
Definition mixes : Viewer.DataFrame :=
  [ Viewer.Row.mk "PCM_BIU_mix125_NA_10x.jpg" "PCM" "BIU" "mix125" "NA" "10x"
      (Some (10 # 1)%Q) ".jpg" "PCM_BIU_mix125_NA_10x.jpg"
      "images/PCM_BIU_mix125_NA_10x.jpg";
    Viewer.Row.mk "PCM_BIU_mix1.5_NA_10x.jpg" "PCM" "BIU" "mix1.5" "NA" "10x"
      (Some (10 # 1)%Q) ".jpg" "PCM_BIU_mix1.5_NA_10x.jpg"
      "images/PCM_BIU_mix1.5_NA_10x.jpg" ].


(** [metadata.csv] read as text cells, and three files of one record:
    one without the [magnification_value] column, one whose last header is
    [Rel_Path], one without the [method] column. *)
Definition images_dir : string :=
  "https://media.githubusercontent.com/media/nate-yang-uk/"
  ++ "Polarising-Microscopic-Image-Viewer/main/images".

Definition load_csv (df : Viewer.Frame string) : Viewer.outcome string :=
  Viewer.load_metadata "<NA>" (fun x => x) (fun x => x)
    (fun x => images_dir ++ "/" ++ x) df.

Definition csv (header record : list string) : Viewer.Frame string :=
  {| Viewer.nrows := 1;
     Viewer.cols := combine header (map (fun v => [v]) record) |}.

Definition csv_without_value : Viewer.Frame string :=
  csv ["filename"; "method"; "location"; "sample"; "mode"; "magnification";
       "ext"; "rel_path"]
      ["PCM_BIU_glassLube_NA_10x.jpg"; "PCM"; "BIU"; "glassLube"; "NA"; "10x";
       ".jpg"; "PCM_BIU_glassLube_NA_10x.jpg"].

Definition csv_with_Rel_Path : Viewer.Frame string :=
  csv ["filename"; "method"; "location"; "sample"; "mode"; "magnification";
       "magnification_value"; "ext"; "Rel_Path"]
      ["PCM_BIU_glassLube_NA_10x.jpg"; "PCM"; "BIU"; "glassLube"; "NA"; "10x";
       "10.0"; ".jpg"; "PCM_BIU_glassLube_NA_10x.jpg"].

Definition csv_without_method : Viewer.Frame string :=
  csv ["filename"; "location"; "sample"; "mode"; "magnification";
       "magnification_value"; "ext"; "rel_path"]
      ["PCM_BIU_glassLube_NA_10x.jpg"; "BIU"; "glassLube"; "NA"; "10x";
       "10.0"; ".jpg"; "PCM_BIU_glassLube_NA_10x.jpg"].

(** The column labels as the validation sees them. *)
Definition normalized (labels : list string) : list string :=
  map (fun c => lower (strip c)) labels.


(** A table of four images: three of the sample [foo] and one of [bar]. *)
Definition image (method location sample mode magnification : string)
    (value : option Q) : Viewer.Row.t :=
  let filename :=
    join "_" [method; location; sample; mode; magnification] ++ ".jpg" in
  Viewer.Row.mk filename method location sample mode magnification value
                ".jpg" filename (images_dir ++ "/" ++ filename).

Definition gallery : Viewer.DataFrame :=
  [ image "PCM" "BIU" "foo" "NA" "5x" (Some (5 # 1)%Q);
    image "PCM" "BIU" "foo" "POL" "10x" (Some (10 # 1)%Q);
    image "DIC" "LAB" "bar" "NA" "10x" (Some (10 # 1)%Q);
    image "DIC" "BIU" "foo" "NA" "10x" (Some (10 # 1)%Q) ].


(** The rows that a grid of [n] columns shows in its column [j]: those at
    the positions [j], [j + n], [j + 2n], ... of the table. *)
Definition rows_of_column {A : Type} (n j : nat) (rows : list A) : list A :=
  map snd (filter (fun ir => fst ir mod n =? j) (Viewer.enumerate rows)).

(** The labels of a frame once the column [key] has been assigned. *)
Definition with_column (key : string) (labels : list string) : list string :=
  if mem key labels then labels else (labels ++ [key])%list.


(** What loading does to the cells of the column labelled [label]. *)
Definition coerced {cell : Type} (to_numeric astype_str : cell -> cell)
    (label : string) : cell -> cell :=
  if mem label Viewer.stringified then astype_str
  else if String.eqb label "magnification_value" then to_numeric
  else fun x => x.


(** Ascending order of two rows by (attribute, file name), on the order of
    text of the standard library: the attribute is smaller, or it is the
    same and the file name is not greater. *)
Definition by_attribute_then_filename (col : Viewer.Row.t -> string)
    (r1 r2 : Viewer.Row.t) : Prop :=
  String.ltb (col r1) (col r2) = true \/
  (col r1 = col r2 /\
   String.leb (Viewer.Row.filename r1) (Viewer.Row.filename r2) = true).


(** A user who leaves the search box empty and, in the multiselect of each
    label listed in [picks], keeps of the options offered only those listed
    for it; the other selections stay at their default. *)
Fixpoint picked (picks : list (string * list string)) (label : string)
    (options : list string) : list string :=
  match picks with
  | [] => options
  | (l, keep) :: picks' =>
      if String.eqb l label then filter (fun o => mem o keep) options
      else picked picks' label options
  end.

Definition picking (picks : list (string * list string)) : Viewer.Sidebar :=
  {| Viewer.text_input := "";
     Viewer.multiselect := picked picks;
     Viewer.selectbox := fun _ options => hd "" options |}.


End Doc.

(** ** Facts about the built-ins *)

Module PyFacts.
Import Py.

Lemma append_nil_r (s : string) : s ++ "" = s.
Proof. induction s as [|a s IH]; simpl; [reflexivity | now rewrite IH]. Qed.

Lemma append_assoc (s1 s2 s3 : string) : (s1 ++ s2) ++ s3 = s1 ++ s2 ++ s3.
Proof. induction s1 as [|a s1 IH]; simpl; [reflexivity | now rewrite IH]. Qed.

Lemma length_append (s1 s2 : string) :
  String.length (s1 ++ s2) = String.length s1 + String.length s2.
Proof. induction s1 as [|a s1 IH]; simpl; [reflexivity | now rewrite IH]. Qed.

Lemma append_cancel_l (s t1 t2 : string) : s ++ t1 = s ++ t2 -> t1 = t2.
Proof.
  induction s as [|a s IH]; simpl; intros H; [assumption |].
  injection H as H. now apply IH.
Qed.

Lemma all_chars_append (p : ascii -> bool) (s1 s2 : string) :
  all_chars p (s1 ++ s2) = all_chars p s1 && all_chars p s2.
Proof.
  induction s1 as [|a s1 IH]; simpl; [reflexivity |].
  now rewrite IH, andb_assoc.
Qed.

(** [split] never returns the empty list, and [join] undoes it. *)
Lemma split_cons (sep : ascii) (s : string) :
  exists t ts, split sep s = t :: ts.
Proof.
  induction s as [|a s (t & ts & IH)]; simpl.
  - now exists "", [].
  - destruct (Ascii.eqb a sep).
    + now exists "", (split sep s).
    + rewrite IH. now exists (String a t), ts.
Qed.

Lemma len_split_pos (sep : ascii) (s : string) : 1 <= len (split sep s).
Proof.
  destruct (split_cons sep s) as (t & ts & ->). unfold len. simpl. lia.
Qed.

Lemma join_cons (sep t : string) (ts : list string) :
  ts <> [] -> join sep (t :: ts) = t ++ sep ++ join sep ts.
Proof. destruct ts; [congruence | reflexivity]. Qed.

Lemma join_split (sep : ascii) (s : string) :
  join (String sep "") (split sep s) = s.
Proof.
  induction s as [|a s IH]; simpl; [reflexivity |].
  destruct (split_cons sep s) as (t & ts & E).
  destruct (Ascii.eqb_spec a sep) as [-> | _].
  - rewrite join_cons by (rewrite E; discriminate).
    simpl. now rewrite IH.
  - rewrite E in *. destruct ts as [|u ts].
    + simpl in *. now rewrite IH.
    + change (join (String sep "") (String a t :: u :: ts))
        with (String a (t ++ String sep "" ++ join (String sep "") (u :: ts))).
      now rewrite <- IH.
Qed.

(** No token of [split] holds the separator. *)
Lemma split_tokens_free (sep : ascii) (s t : string) :
  In t (split sep s) -> all_chars (fun a => negb (Ascii.eqb a sep)) t = true.
Proof.
  revert t. induction s as [|a s IH]; simpl; intros t H.
  - destruct H as [<- | []]. reflexivity.
  - destruct (Ascii.eqb a sep) eqn:E.
    + destruct H as [<- | H]; [reflexivity | now apply IH].
    + destruct (split_cons sep s) as (u & us & Es). rewrite Es in *.
      destruct H as [<- | H].
      * simpl. rewrite E. simpl. apply IH. now left.
      * apply IH. now right.
Qed.

Lemma replace_absent (a b : ascii) (s : string) :
  all_chars (fun x => negb (Ascii.eqb x a)) s = true -> replace a b s = s.
Proof.
  induction s as [|x s IH]; simpl; [reflexivity |].
  intros H. apply andb_true_iff in H as [Hx Hs].
  apply negb_true_iff in Hx. rewrite Hx. now rewrite IH.
Qed.

(** Indexing a list of tokens, from the front and from the back. *)
Lemma item_nth_error (l : list string) (i : nat) :
  i < len l -> nth_error l i = Some (item l i).
Proof. intros H. unfold item. now apply nth_error_nth'. Qed.

Lemma item_back_nth_error (l : list string) (k : nat) :
  1 <= k <= len l -> nth_error l (len l - k) = Some (item_back l k).
Proof. intros H. unfold item_back. apply nth_error_nth'. unfold len in *. lia. Qed.

(** A list of at least four tokens is two leading tokens, a middle span
    and two trailing tokens; the middle span is the slice [l[2:-2]]. *)
Lemma tokens_shape (l : list string) :
  4 <= len l ->
  l = (item l 0 :: item l 1 :: slice_to_back l 2 2
       ++ [item_back l 2; item_back l 1])%list.
Proof.
  intros H. unfold slice_to_back, item, item_back, len in *.
  destruct l as [|t0 [|t1 l]]; simpl in H; try lia.
  simpl length. simpl nth at 1 2.
  replace (S (S (length l)) - 2) with (length l) by lia.
  replace (S (S (length l)) - 1) with (S (length l)) by lia.
  do 2 f_equal.
  assert (E : exists m a b, l = (m ++ [a; b])%list).
  { destruct (rev l) as [|b [|a m]] eqn:R.
    - apply (f_equal (@length _)) in R. rewrite length_rev in R. simpl in R. lia.
    - apply (f_equal (@length _)) in R. rewrite length_rev in R. simpl in R. lia.
    - exists (rev m), a, b. rewrite <- (rev_involutive l), R. simpl.
      now rewrite <- app_assoc. }
  destruct E as (m & a & b & ->).
  rewrite length_app. simpl length.
  replace (length m + 2) with (S (S (length m))) by lia.
  simpl firstn. simpl skipn.
  rewrite firstn_app, firstn_all, Nat.sub_diag. simpl firstn. rewrite app_nil_r.
  f_equal. cbn [nth].
  rewrite !app_nth2 by lia.
  replace (length m - length m) with 0 by lia.
  replace (S (length m) - length m) with 1 by lia. reflexivity.
Qed.

End PyFacts.

(** ** The matcher finds exactly what the patterns denote *)

Module ReFacts.
Import Py PyFacts Re Doc.

(** Inversion of [matches], one lemma per constructor of the pattern. *)
Lemma matches_eps s c c' : matches Eps s c c' -> s = "" /\ c' = c.
Proof. intros M. inversion M; subst. now split. Qed.

Lemma matches_class p s c c' :
  matches (Class p) s c c' -> exists a, s = String a "" /\ p a = true /\ c' = c.
Proof. intros M. inversion M; subst. now exists a. Qed.

Lemma matches_cat r1 r2 s c c' :
  matches (Cat r1 r2) s c c' ->
  exists s1 s2 c1, s = s1 ++ s2 /\ matches r1 s1 c c1 /\ matches r2 s2 c1 c'.
Proof. intros M. inversion M; subst. now exists s1, s2, c1. Qed.

Lemma matches_alt r1 r2 s c c' :
  matches (Alt r1 r2) s c c' -> matches r1 s c c' \/ matches r2 s c c'.
Proof. intros M. inversion M; subst; [now left | now right]. Qed.

Lemma matches_group i r s c c' :
  matches (Group i r) s c c' -> exists c1, c' = (i, s) :: c1 /\ matches r s c c1.
Proof. intros M. inversion M; subst. now exists c'0. Qed.

Lemma substring_prefix (s1 s2 : string) :
  substring 0 (String.length s1) (s1 ++ s2) = s1.
Proof.
  apply prefix_correct. induction s1 as [|x s1 IHs]; simpl.
  - now destruct s2.
  - destruct (ascii_dec x x); [assumption | congruence].
Qed.

Lemma consumed_append (s1 s2 : string) : consumed (s1 ++ s2) s2 = s1.
Proof.
  unfold consumed. rewrite length_append.
  replace (String.length s1 + String.length s2 - String.length s2)
    with (String.length s1) by lia.
  apply substring_prefix.
Qed.

Section Matcher.
Context {A : Type}.

Lemma star_loop_sound (r : regex) step (k : string -> captures -> option A) :
  sound_step r step ->
  forall n s c a, star_loop step k n s c = Some a ->
    exists s1 s2 c', s = s1 ++ s2 /\ matches (Star r) s1 c c' /\ k s2 c' = Some a.
Proof.
  intros Hstep. induction n as [|n IH]; intros s c a H; simpl in H.
  - exists "", s, c. repeat split; [constructor | assumption].
  - destruct (step s c _) as [a0|] eqn:E.
    + injection H as ->. apply Hstep in E as (s1 & s2 & c1 & -> & M & K).
      destruct (String.length s2 <? String.length (s1 ++ s2)) eqn:L;
        [| discriminate].
      apply IH in K as (s3 & s4 & c2 & -> & M' & K').
      exists (s1 ++ s3), s4, c2. repeat split.
      * now rewrite append_assoc.
      * apply MStarS with c1; try assumption.
        intros ->. simpl in L. apply Nat.ltb_lt in L. lia.
      * assumption.
    + exists "", s, c. repeat split; [constructor | assumption].
Qed.

Lemma run_sound (r : regex) : sound_step (A := A) r (run r).
Proof.
  induction r as [|p|r1 IH1 r2 IH2|r1 IH1 r2 IH2|r IH|i r IH];
    intros s c k a H; simpl in H.
  - exists "", s, c. repeat split; [constructor | assumption].
  - destruct s as [|x s]; [discriminate |].
    destruct (p x) eqn:P; [| discriminate].
    exists (String x ""), s, c. repeat split; [now constructor | assumption].
  - apply IH1 in H as (s1 & s2 & c1 & -> & M1 & H).
    apply IH2 in H as (s3 & s4 & c2 & -> & M2 & H).
    exists (s1 ++ s3), s4, c2. repeat split.
    + now rewrite append_assoc.
    + now apply MCat with c1.
    + assumption.
  - destruct (run r1 s c k) as [a0|] eqn:E.
    + injection H as ->. apply IH1 in E as (s1 & s2 & c1 & -> & M & K).
      exists s1, s2, c1. repeat split; [now apply MAltL | assumption].
    + apply IH2 in H as (s1 & s2 & c1 & -> & M & K).
      exists s1, s2, c1. repeat split; [now apply MAltR | assumption].
  - now apply (star_loop_sound r (run r) k IH) in H.
  - apply IH in H as (s1 & s2 & c1 & -> & M & K).
    exists s1, s2, ((i, s1) :: c1). repeat split; [now constructor |].
    now rewrite consumed_append in K.
Qed.

Lemma star_loop_complete (r : regex) step :
  complete_step (A := A) r step ->
  forall s1 c c', matches (Star r) s1 c c' ->
    forall n s2 k a, String.length (s1 ++ s2) <= n -> k s2 c' = Some a ->
      exists a', star_loop step k n (s1 ++ s2) c = Some a'.
Proof.
  intros Hstep s1 c c' M. remember (Star r) as sr eqn:E.
  induction M as [| | | | |r0 c|r0 u v c c1 c2 Hu Mu _ Mv IH|];
    try discriminate; injection E as ->; intros n s2 k a Hn K.
  - simpl. destruct n as [|n]; simpl; [now exists a |].
    destruct (step s2 c _) as [a0|]; [now exists a0 | now exists a].
  - destruct n as [|n].
    + rewrite !length_append in Hn. destruct u; [congruence | simpl in Hn; lia].
    + simpl. rewrite append_assoc.
      destruct (IH eq_refl n s2 k a) as (a1 & L); [| assumption |].
      { rewrite !length_append in *. destruct u; [congruence | simpl in Hn; lia]. }
      destruct (Hstep u c c1 Mu (v ++ s2)
                  (fun s' c' =>
                     if String.length s' <? String.length (u ++ v ++ s2)
                     then star_loop step k n s' c' else None) a1)
        as (a2 & R).
      { replace (String.length (v ++ s2) <? String.length (u ++ v ++ s2))
          with true; [assumption |].
        symmetry. apply Nat.ltb_lt. rewrite (length_append u).
        destruct u; [congruence | simpl; lia]. }
      rewrite R. now exists a2.
Qed.

Lemma run_complete (r : regex) : complete_step (A := A) r (run r).
Proof.
  induction r as [|p|r1 IH1 r2 IH2|r1 IH1 r2 IH2|r IH|i r IH];
    intros s1 c c' M s2 k a K.
  - apply matches_eps in M as [-> ->]. now exists a.
  - apply matches_class in M as (x & -> & P & ->). simpl. rewrite P. now exists a.
  - apply matches_cat in M as (u & v & c1 & -> & M1 & M2).
    simpl. rewrite append_assoc.
    destruct (IH2 _ _ _ M2 s2 k a K) as (a1 & R2).
    now apply (IH1 _ _ _ M1 (v ++ s2) _ a1).
  - simpl. apply matches_alt in M as [M | M].
    + destruct (IH1 _ _ _ M s2 k a K) as (a1 & ->). now exists a1.
    + destruct (run r1 (s1 ++ s2) c k) as [a0|]; [now exists a0 |].
      now apply (IH2 _ _ _ M s2 k a).
  - simpl. now apply (star_loop_complete r (run r) IH s1 c c' M _ s2 k a).
  - apply matches_group in M as (c1 & -> & M). simpl.
    apply (IH _ _ _ M s2 _ a). now rewrite consumed_append.
Qed.

End Matcher.

End ReFacts.

(** ** The magnification pattern and the grammar of the design document *)

Module MagnificationFacts.
Import Py PyFacts Re Doc ReFacts MakeMetadata.

Lemma all_chars_impl (p q : ascii -> bool) (s : string) :
  (forall a, p a = true -> q a = true) ->
  all_chars p s = true -> all_chars q s = true.
Proof.
  intros Hpq. induction s as [|a s IH]; simpl; [reflexivity |].
  intros H. apply andb_true_iff in H as [Ha Hs].
  now rewrite (Hpq a Ha), IH.
Qed.

Lemma matches_star_class p s c c' :
  matches (Star (Class p)) s c c' -> c' = c /\ all_chars p s = true.
Proof.
  intros M. remember (Star (Class p)) as r eqn:E.
  induction M as [| | | | |r0 c|r0 u v c c1 c2 Hu Mu _ Mv IH|];
    try discriminate; injection E as ->.
  - now split.
  - apply matches_class in Mu as (a & -> & P & ->).
    destruct (IH eq_refl) as [-> Hv]. split; [reflexivity |].
    simpl. now rewrite P.
Qed.

Lemma star_class_matches p s c :
  all_chars p s = true -> matches (Star (Class p)) s c c.
Proof.
  induction s as [|a s IH]; simpl; intros H; [constructor |].
  apply andb_true_iff in H as [Ha Hs].
  change (String a s) with (String a "" ++ s).
  apply MStarS with c; [discriminate | now constructor | now apply IH].
Qed.

Lemma matches_plus_digit s c c' :
  matches (Plus digit) s c c' -> c' = c /\ is_digits s = true.
Proof.
  intros M. apply matches_cat in M as (u & v & c1 & -> & Mu & Mv).
  apply matches_class in Mu as (a & -> & P & ->).
  apply matches_star_class in Mv as [-> Hv]. split; [reflexivity |].
  unfold is_digits. simpl. now rewrite P, Hv.
Qed.

Lemma plus_digit_matches s c :
  is_digits s = true -> matches (Plus digit) s c c.
Proof.
  unfold is_digits. destruct s as [|a s]; simpl; [discriminate |].
  intros H. apply andb_true_iff in H as [Ha Hs].
  change (String a s) with (String a "" ++ s).
  apply MCat with c; [now constructor | now apply star_class_matches].
Qed.

Lemma matches_mag_number g c c' :
  matches mag_number g c c' -> numeric_literal g.
Proof.
  intros M. apply matches_cat in M as (i & t & c1 & -> & Mi & Mt).
  apply matches_plus_digit in Mi as [-> Hi].
  exists i. split; [assumption |].
  apply matches_alt in Mt as [Mt | Mt].
  - apply matches_group in Mt as (c2 & -> & Mt).
    apply matches_cat in Mt as (d & f & c3 & -> & Md & Mf).
    apply matches_class in Md as (a & -> & Pa & ->).
    apply matches_plus_digit in Mf as [-> Hf].
    apply Ascii.eqb_eq in Pa as <-.
    right. now exists f.
  - apply matches_eps in Mt as [-> ->]. left. apply append_nil_r.
Qed.

Lemma mag_number_matches g c :
  numeric_literal g -> exists c', matches mag_number g c c'.
Proof.
  intros (i & Hi & [-> | (f & Hf & ->)]).
  - exists c. rewrite <- (append_nil_r i).
    apply MCat with c; [now apply plus_digit_matches |].
    apply MAltR. constructor.
  - exists ((2, "." ++ f) :: c).
    apply MCat with c; [now apply plus_digit_matches |].
    apply MAltL. constructor.
    change ("." ++ f) with (String "." "" ++ f).
    apply MCat with c; [constructor; apply Ascii.eqb_refl |].
    now apply plus_digit_matches.
Qed.

Lemma matches_mag_tail t c c' :
  matches mag_tail t c c' ->
  c' = c /\ exists w2 x w3,
    t = w2 ++ x ++ w3 /\ all_space w2 /\ (x = "" \/ x = "x" \/ x = "X")
    /\ all_space w3.
Proof.
  intros M. apply matches_cat in M as (w2 & t' & c1 & -> & M2 & M).
  apply matches_star_class in M2 as [-> H2].
  apply matches_cat in M as (x & w3 & c2 & -> & Mx & M3).
  apply matches_star_class in M3 as [-> H3].
  assert (Hx : c2 = c /\ (x = "" \/ x = "x" \/ x = "X")).
  { apply matches_alt in Mx as [Mx | Mx].
    - apply matches_class in Mx as (a & -> & Pa & ->). split; [reflexivity |].
      unfold is_x in Pa. apply orb_true_iff in Pa as [Pa | Pa];
        apply Ascii.eqb_eq in Pa as ->; auto.
    - apply matches_eps in Mx as [-> ->]. auto. }
  destruct Hx as [-> Hx]. split; [reflexivity |].
  now exists w2, x, w3.
Qed.

Lemma mag_tail_matches w2 x w3 c :
  all_space w2 -> (x = "" \/ x = "x" \/ x = "X") -> all_space w3 ->
  matches mag_tail (w2 ++ x ++ w3) c c.
Proof.
  intros H2 Hx H3.
  apply MCat with c; [now apply star_class_matches |].
  apply MCat with c; [| now apply star_class_matches].
  destruct Hx as [-> | [-> | ->]].
  - apply MAltR. constructor.
  - apply MAltL. now constructor.
  - apply MAltL. now constructor.
Qed.

(** A successful match binds group 1 to a literal of the grammar. *)
Lemma match_anchored_sound (tmp : string) (m : captures) :
  match_anchored mag_re tmp = Some m ->
  exists g, lookup 1 m = Some g /\ mag_grammar tmp g.
Proof.
  unfold match_anchored. intros H.
  apply run_sound in H as (s1 & s2 & c' & -> & M & K).
  destruct (at_end s2) eqn:E; [| discriminate]. injection K as ->.
  apply matches_cat in M as (w1 & t & c1 & -> & M1 & M).
  apply matches_star_class in M1 as [-> H1].
  apply matches_cat in M as (g & t' & c2 & -> & Mg & Mt).
  apply matches_group in Mg as (c3 & -> & Mg).
  apply matches_mag_tail in Mt as [-> (w2 & x & w3 & -> & H2 & Hx & H3)].
  exists g. split; [reflexivity |].
  exists w1, w2, x, (w3 ++ s2). repeat split; try assumption.
  - now rewrite !append_assoc.
  - now apply matches_mag_number in Mg.
  - unfold all_space. rewrite all_chars_append, H3. simpl.
    unfold at_end in E. apply orb_true_iff in E as [E | E];
      apply String.eqb_eq in E as ->; reflexivity.
Qed.

(** Every text of the grammar is matched. *)
Lemma match_anchored_complete (tmp g : string) :
  mag_grammar tmp g -> exists m, match_anchored mag_re tmp = Some m.
Proof.
  intros (w1 & w2 & x & w3 & -> & H1 & Hg & H2 & Hx & H3).
  destruct (mag_number_matches g [] Hg) as (c1 & Mg).
  unfold match_anchored.
  rewrite <- (append_nil_r (w1 ++ g ++ w2 ++ x ++ w3)).
  apply (run_complete mag_re _ [] ((1, g) :: c1)) with (a := (1, g) :: c1).
  - apply MCat with []; [now apply star_class_matches |].
    apply MCat with ((1, g) :: c1); [now constructor |].
    now apply mag_tail_matches.
  - reflexivity.
Qed.

(** The literal of a text of the grammar is determined by the text. *)
Lemma span_append (p : ascii -> bool) (a b : string) :
  all_chars p a = true -> head_outside p b -> span p (a ++ b) = (a, b).
Proof.
  induction a as [|x a IH]; simpl; intros Ha Hb.
  - destruct b as [|y b]; [reflexivity |]. simpl in *. now rewrite Hb.
  - apply andb_true_iff in Ha as [Hx Ha]. now rewrite Hx, IH.
Qed.

Lemma digit_not_space (a : ascii) : is_digit a = true -> is_space a = false.
Proof.
  unfold is_digit, is_space. intros H.
  apply andb_true_iff in H as [H1 H2].
  apply Nat.leb_le in H1, H2.
  repeat (apply orb_false_iff; split).
  - apply andb_false_iff. right. apply Nat.leb_gt. lia.
  - apply andb_false_iff. right. apply Nat.leb_gt. lia.
  - apply Nat.eqb_neq. lia.
  - apply Nat.eqb_neq. lia.
Qed.

Lemma space_not_digit_or_dot (a : ascii) :
  is_space a = true -> digit_or_dot a = false.
Proof.
  intros H. unfold digit_or_dot. apply orb_false_iff. split.
  - destruct (is_digit a) eqn:D; [| reflexivity].
    apply digit_not_space in D. congruence.
  - destruct (Ascii.eqb_spec a ".") as [-> | _]; [discriminate | reflexivity].
Qed.

Lemma is_digits_head (i : string) :
  is_digits i = true ->
  exists a i', i = String a i' /\ is_digit a = true /\ all_chars is_digit i' = true.
Proof.
  unfold is_digits. destruct i as [|a i]; simpl; [discriminate |].
  intros H. apply andb_true_iff in H as [Ha Hi]. now exists a, i.
Qed.

Lemma is_digits_all (i : string) :
  is_digits i = true -> all_chars digit_or_dot i = true.
Proof.
  unfold is_digits. intros H. apply andb_true_iff in H as [_ H].
  revert H. apply all_chars_impl. intros a Ha. unfold digit_or_dot.
  now rewrite Ha.
Qed.

Lemma numeric_literal_chars (g : string) :
  numeric_literal g ->
  all_chars digit_or_dot g = true /\
  exists a g', g = String a g' /\ is_digit a = true.
Proof.
  intros (i & Hi & Hg).
  destruct (is_digits_head i Hi) as (a & i' & -> & Ha & _).
  destruct Hg as [-> | (f & Hf & ->)].
  - split; [now apply is_digits_all | now exists a, i'].
  - split; [| now exists a, (i' ++ "." ++ f)].
    rewrite all_chars_append, (is_digits_all _ Hi). simpl.
    change (all_chars digit_or_dot f = true). now apply is_digits_all.
Qed.

Lemma tail_head_outside (w2 x w3 : string) :
  all_space w2 -> (x = "" \/ x = "x" \/ x = "X") -> all_space w3 ->
  head_outside digit_or_dot (w2 ++ x ++ w3).
Proof.
  unfold all_space. intros H2 Hx H3.
  destruct w2 as [|a w2]; simpl in *.
  - destruct Hx as [-> | [-> | ->]]; simpl; try reflexivity.
    destruct w3 as [|b w3]; simpl in *; [exact I |].
    apply andb_true_iff in H3 as [Hb _]. now apply space_not_digit_or_dot.
  - apply andb_true_iff in H2 as [Ha _]. now apply space_not_digit_or_dot.
Qed.

Lemma mag_grammar_unique (tmp g g' : string) :
  mag_grammar tmp g -> mag_grammar tmp g' -> g = g'.
Proof.
  intros (w1 & w2 & x & w3 & E & H1 & Hg & H2 & Hx & H3)
         (v1 & v2 & y & v3 & E' & K1 & Kg & K2 & Ky & K3).
  destruct (numeric_literal_chars g Hg) as (Ag & a & g0 & Eg & Da).
  destruct (numeric_literal_chars g' Kg) as (Ag' & b & g0' & Eg' & Db).
  assert (S1 : span is_space tmp = (w1, g ++ w2 ++ x ++ w3)).
  { rewrite E. apply span_append; [assumption |].
    rewrite Eg. simpl. now apply digit_not_space. }
  assert (S2 : span is_space tmp = (v1, g' ++ v2 ++ y ++ v3)).
  { rewrite E'. apply span_append; [assumption |].
    rewrite Eg'. simpl. now apply digit_not_space. }
  rewrite S1 in S2. injection S2 as _ R.
  assert (T1 : span digit_or_dot (g ++ w2 ++ x ++ w3) = (g, w2 ++ x ++ w3)).
  { apply span_append; [assumption | now apply tail_head_outside]. }
  assert (T2 : span digit_or_dot (g' ++ v2 ++ y ++ v3) = (g', v2 ++ y ++ v3)).
  { apply span_append; [assumption | now apply tail_head_outside]. }
  rewrite R in T1. rewrite T1 in T2. now injection T2.
Qed.

(** [float] accepts every literal of the grammar. *)
Lemma split_free (sep : ascii) (s : string) :
  all_chars (fun a => negb (Ascii.eqb a sep)) s = true -> split sep s = [s].
Proof.
  induction s as [|a s IH]; simpl; [reflexivity |].
  intros H. apply andb_true_iff in H as [Ha Hs].
  apply negb_true_iff in Ha. now rewrite Ha, IH.
Qed.

Lemma split_at_sep (sep : ascii) (i rest : string) :
  all_chars (fun a => negb (Ascii.eqb a sep)) i = true ->
  split sep (i ++ String sep rest) = i :: split sep rest.
Proof.
  induction i as [|a i IH]; simpl.
  - intros _. now rewrite Ascii.eqb_refl.
  - intros H. apply andb_true_iff in H as [Ha Hi].
    apply negb_true_iff in Ha. now rewrite Ha, IH.
Qed.

Lemma is_digits_dot_free (i : string) :
  is_digits i = true -> all_chars (fun a => negb (Ascii.eqb a ".")) i = true.
Proof.
  unfold is_digits. intros H. apply andb_true_iff in H as [_ H].
  revert H. apply all_chars_impl. intros a Ha.
  destruct (Ascii.eqb_spec a ".") as [-> | _]; [discriminate | reflexivity].
Qed.

Lemma float_of_literal (g : string) :
  numeric_literal g -> exists v, float_of_str g = Some v.
Proof.
  intros (i & Hi & [-> | (f & Hf & ->)]); unfold float_of_str.
  - rewrite split_free by now apply is_digits_dot_free.
    rewrite Hi. eauto.
  - change (i ++ "." ++ f) with (i ++ String "." f).
    rewrite split_at_sep by now apply is_digits_dot_free.
    rewrite split_free by now apply is_digits_dot_free.
    rewrite Hi, Hf. simpl. eauto.
Qed.

(** The value stored for a raw magnification text: present exactly when
    the text, separators replaced by dots, is in the grammar, and then the
    value of its literal. *)
Lemma mag_value_of_some (t : string) (v : Q) :
  mag_value_of t = Some v <->
  exists g, mag_grammar (replace "_" "." t) g /\ float_of_str g = Some v.
Proof.
  unfold mag_value_of. split.
  - destruct (match_anchored mag_re (replace "_" "." t)) as [m|] eqn:E;
      [| discriminate].
    apply match_anchored_sound in E as (g & -> & G).
    destruct (float_of_str g) as [w|] eqn:F; [| discriminate].
    intros [= ->]. now exists g.
  - intros (g & G & F).
    destruct (match_anchored_complete _ _ G) as (m & E). rewrite E.
    apply match_anchored_sound in E as (g' & -> & G').
    rewrite (mag_grammar_unique _ _ _ G' G), F. reflexivity.
Qed.

Lemma mag_value_of_none (t : string) :
  mag_value_of t = None <-> ~ exists g, mag_grammar (replace "_" "." t) g.
Proof.
  split.
  - intros N (g & G).
    destruct G as (w1 & w2 & x & w3 & E & H1 & Hg & H2 & Hx & H3).
    destruct (float_of_literal g Hg) as (v & F).
    assert (S : mag_value_of t = Some v).
    { apply mag_value_of_some. exists g. split; [| assumption].
      now exists w1, w2, x, w3. }
    congruence.
  - intros N. destruct (mag_value_of t) as [v|] eqn:E; [| reflexivity].
    apply mag_value_of_some in E as (g & G & _). exfalso. apply N. now exists g.
Qed.

End MagnificationFacts.

(** ** [parse_filename] meets its contract *)

Module ParserSpec.
Import Py PyFacts Re Doc MagnificationFacts MakeMetadata.

Lemma map_nth_middle (p m q : list string) :
  map (fun i => nth i (p ++ m ++ q)%list "") (seq (length p) (length m)) = m.
Proof.
  revert p. induction m as [|x m IH]; intros p; simpl; [reflexivity |].
  f_equal.
  - now rewrite nth_middle.
  - specialize (IH (p ++ [x])%list).
    rewrite length_app, Nat.add_1_r, <- app_assoc in IH. exact IH.
Qed.

(** The slice [parts[2:-2]] is the span of the middle tokens. *)
Lemma slice_is_middle (l : list string) :
  4 <= len l -> slice_to_back l 2 2 = middle l.
Proof.
  intros H. pose proof (tokens_shape l H) as E.
  remember (slice_to_back l 2 2) as m eqn:Em. clear Em.
  assert (L : len l - 4 = length m).
  { apply (f_equal (@length _)) in E. simpl in E. rewrite length_app in E.
    simpl in E. unfold len. lia. }
  unfold middle. rewrite L, E. symmetry.
  apply (map_nth_middle [item l 0; item l 1] m [item_back l 2; item_back l 1]).
Qed.

Lemma parse_filename_ok (name : string) :
  5 <= len (tokens name) ->
  parse_filename name =
  Ok (Rec.mk (item (tokens name) 0) (item (tokens name) 1)
             (if len (tokens name) =? 5 then item (tokens name) 2
              else join "_" (slice_to_back (tokens name) 2 2))
             (item_back (tokens name) 2) (item_back (tokens name) 1)
             (mag_value_of (item_back (tokens name) 1))
             (lower (suffix name))).
Proof.
  intros H. unfold parse_filename. fold (tokens name).
  destruct (Nat.ltb_spec (len (tokens name)) 5) as [L | _]; [lia |].
  destruct (Nat.eqb_spec (len (tokens name)) 5) as [E | _]; [| reflexivity].
  unfold item_back. rewrite E. reflexivity.
Qed.

Lemma parse_filename_raise (name : string) :
  len (tokens name) < 5 ->
  parse_filename name =
  Raise (ValueError (too_few_tokens (len (tokens name)) (stem name))).
Proof.
  intros H. unfold parse_filename. fold (tokens name).
  now destruct (Nat.ltb_spec (len (tokens name)) 5) as [_ | L]; [| lia].
Qed.

(** C1. A file name whose stem has at least five tokens is parsed, and
    the record takes [method] and [location] from tokens 0 and 1, [mode]
    from the second-to-last token and the raw [magnification] from the last
    token. *)
Theorem parse_filename_anchors (name : string) :
  5 <= len (tokens name) ->
  exists rec,
    parse_filename name = Ok rec /\
    nth_error (tokens name) 0 = Some (Rec.method rec) /\
    nth_error (tokens name) 1 = Some (Rec.location rec) /\
    nth_error (tokens name) (len (tokens name) - 2) = Some (Rec.mode rec) /\
    nth_error (tokens name) (len (tokens name) - 1) = Some (Rec.magnification rec).
Proof.
  intros H. eexists. split; [now apply parse_filename_ok |].
  cbn [Rec.method Rec.location Rec.mode Rec.magnification].
  repeat split.
  - apply item_nth_error. lia.
  - apply item_nth_error. lia.
  - apply item_back_nth_error. lia.
  - apply item_back_nth_error. lia.
Qed.

Lemma parse_filename_anchors_witness :
  exists rec,
    parse_filename "PCM_BIU_glassLube_NA_10x.jpg" = Ok rec /\
    nth_error (tokens "PCM_BIU_glassLube_NA_10x.jpg") 0 = Some (Rec.method rec) /\
    nth_error (tokens "PCM_BIU_glassLube_NA_10x.jpg") 1 = Some (Rec.location rec) /\
    nth_error (tokens "PCM_BIU_glassLube_NA_10x.jpg")
              (len (tokens "PCM_BIU_glassLube_NA_10x.jpg") - 2)
      = Some (Rec.mode rec) /\
    nth_error (tokens "PCM_BIU_glassLube_NA_10x.jpg")
              (len (tokens "PCM_BIU_glassLube_NA_10x.jpg") - 1)
      = Some (Rec.magnification rec).
Proof.
  apply (parse_filename_anchors "PCM_BIU_glassLube_NA_10x.jpg").
  vm_compute. lia.
Defined.

(** C2. In a parsed record, [sample] is token 2 itself when the stem has
    exactly five tokens, and otherwise the tokens strictly between position
    1 and the last two, joined by the separator; the seven-token stem
    [PCM_BIU_glass_lube_extra_NA_10x] gives [glass_lube_extra]. *)
Theorem parse_filename_sample (name : string) (rec : Rec.t) :
  parse_filename name = Ok rec ->
  (len (tokens name) = 5 -> nth_error (tokens name) 2 = Some (Rec.sample rec)) /\
  (5 < len (tokens name) -> Rec.sample rec = join "_" (middle (tokens name))) /\
  (name = "PCM_BIU_glass_lube_extra_NA_10x" ->
   len (tokens name) = 7 /\ Rec.sample rec = "glass_lube_extra").
Proof.
  intros P.
  assert (H : 5 <= len (tokens name)).
  { destruct (Nat.lt_ge_cases (len (tokens name)) 5) as [L | L]; [| assumption].
    rewrite (parse_filename_raise name L) in P. discriminate. }
  rewrite (parse_filename_ok name H) in P. injection P as <-.
  cbn [Rec.sample].
  split; [| split].
  - intros E. rewrite E. cbn [Nat.eqb]. apply item_nth_error. lia.
  - intros L. destruct (Nat.eqb_spec (len (tokens name)) 5) as [E | _]; [lia |].
    rewrite slice_is_middle by lia. reflexivity.
  - intros ->. split; reflexivity.
Qed.

Lemma parse_filename_sample_witness :
  exists rec,
    parse_filename "PCM_BIU_glass_lube_extra_NA_10x" = Ok rec /\
    Rec.sample rec = "glass_lube_extra" /\
    Rec.sample rec = join "_" (middle (tokens "PCM_BIU_glass_lube_extra_NA_10x")).
Proof.
  exists (Rec.mk "PCM" "BIU" "glass_lube_extra" "NA" "10x" (Some (10 # 1)%Q) "").
  assert (P : parse_filename "PCM_BIU_glass_lube_extra_NA_10x"
              = Ok (Rec.mk "PCM" "BIU" "glass_lube_extra" "NA" "10x"
                           (Some (10 # 1)%Q) ""))
    by (vm_compute; reflexivity).
  destruct (parse_filename_sample _ _ P) as (_ & H2 & H3).
  split; [exact P | split].
  - apply H3. reflexivity.
  - apply H2. vm_compute. lia.
Defined.

(** C4. Parsing fails exactly when the stem has fewer than five tokens,
    and the error raised then states the number of tokens found. *)
Theorem parse_filename_fails_iff (name : string) :
  (len (tokens name) < 5 ->
   parse_filename name =
   Raise (ValueError ("Expected at least 5 tokens separated by '_' but got "
                      ++ str_of_nat (len (tokens name)) ++ ": " ++ stem name)))
  /\ (forall e, parse_filename name = Raise e -> len (tokens name) < 5).
Proof.
  split.
  - apply parse_filename_raise.
  - intros e P.
    destruct (Nat.lt_ge_cases (len (tokens name)) 5) as [L | L]; [assumption |].
    rewrite (parse_filename_ok name L) in P. discriminate.
Qed.

Lemma parse_filename_fails_iff_witness :
  parse_filename "bad.jpg" =
  Raise (ValueError "Expected at least 5 tokens separated by '_' but got 1: bad")
  /\ len (tokens "bad.jpg") < 5.
Proof.
  split.
  - apply (proj1 (parse_filename_fails_iff "bad.jpg")). vm_compute. lia.
  - apply (proj2 (parse_filename_fails_iff "bad.jpg")
             (ValueError "Expected at least 5 tokens separated by '_' but got 1: bad")).
    vm_compute. reflexivity.
Defined.

(** The raw magnification is a token, so it holds no separator: in
    [parse_filename] the replacement of separators by dots changes
    nothing. *)
Lemma raw_magnification_separator_free (name : string) (rec : Rec.t) :
  parse_filename name = Ok rec ->
  replace "_" "." (Rec.magnification rec) = Rec.magnification rec.
Proof.
  intros P.
  assert (H : 5 <= len (tokens name)).
  { destruct (Nat.lt_ge_cases (len (tokens name)) 5) as [L | L]; [| assumption].
    rewrite (parse_filename_raise name L) in P. discriminate. }
  rewrite (parse_filename_ok name H) in P. injection P as <-.
  cbn [Rec.magnification].
  apply replace_absent, (split_tokens_free "_" (stem name)).
  unfold item_back. apply nth_In. fold (tokens name). unfold len in *. lia.
Qed.

End ParserSpec.

(** ** Sorting, distinct values and the order on text *)

Module SortFacts.
Import Py Doc.

Section Sorting.
Context {A : Type} (le : A -> A -> bool).
Hypothesis le_total : forall x y, le x y = true \/ le y x = true.
Hypothesis le_trans :
  forall x y z, le x y = true -> le y z = true -> le x z = true.

Lemma insert_perm (x : A) (l : list A) : Permutation (insert le x l) (x :: l).
Proof.
  induction l as [|y l IH]; simpl; [reflexivity |].
  destruct (le x y); [reflexivity |].
  rewrite IH. apply perm_swap.
Qed.

Lemma sort_perm (l : list A) : Permutation (sort le l) l.
Proof.
  induction l as [|x l IH]; simpl; [reflexivity |].
  rewrite insert_perm. now constructor.
Qed.

Lemma insert_sorted (x : A) (l : list A) :
  StronglySorted (holds le) l -> StronglySorted (holds le) (insert le x l).
Proof.
  induction 1 as [|y l S IH F]; simpl.
  - repeat constructor.
  - destruct (le x y) eqn:E.
    + constructor; [now constructor |].
      constructor; [exact E |].
      revert F. apply Forall_impl. intros z Hz. now apply le_trans with y.
    + constructor; [assumption |].
      apply (Permutation_Forall (Permutation_sym (insert_perm x l))).
      constructor; [| assumption].
      destruct (le_total x y) as [C | C]; [congruence | exact C].
Qed.

Lemma sort_sorted (l : list A) : StronglySorted (holds le) (sort le l).
Proof.
  induction l as [|x l IH]; simpl; [constructor | now apply insert_sorted].
Qed.
End Sorting.

Lemma filter_sorted {A : Type} (R : A -> A -> Prop) (f : A -> bool) (l : list A) :
  StronglySorted R l -> StronglySorted R (filter f l).
Proof.
  induction 1 as [|x l S IH F]; simpl; [constructor |].
  destruct (f x); [| assumption].
  constructor; [assumption |].
  apply Forall_forall. intros y Hy. apply filter_In in Hy as [Hy _].
  revert y Hy. now apply Forall_forall.
Qed.

(** The order on text. *)
Lemma compare_lt_trans (a b c : string) :
  String.compare a b = Lt -> String.compare b c = Lt -> String.compare a c = Lt.
Proof.
  intros H1 H2.
  exact (StrictOrder_Transitive (R := String_as_OT.lt) a b c H1 H2).
Qed.

Lemma compare_refl (a : string) : String.compare a a = Eq.
Proof.
  destruct (String.compare a a) eqn:E; [reflexivity | |];
    pose proof (String.compare_antisym a a) as S; rewrite E in S; discriminate.
Qed.

Lemma leb_trans (a b c : string) :
  String.leb a b = true -> String.leb b c = true -> String.leb a c = true.
Proof.
  unfold String.leb.
  destruct (String.compare a b) eqn:E1; try discriminate;
    destruct (String.compare b c) eqn:E2; try discriminate; intros _ _.
  - apply String.compare_eq_iff in E1 as ->. now rewrite E2.
  - apply String.compare_eq_iff in E1 as ->. now rewrite E2.
  - apply String.compare_eq_iff in E2 as ->. now rewrite E1.
  - now rewrite (compare_lt_trans a b c).
Qed.

Lemma sorted_perm (l : list string) : Permutation (sorted l) l.
Proof. apply sort_perm. Qed.

Lemma sorted_sorted (l : list string) :
  StronglySorted (holds String.leb) (sorted l).
Proof. apply sort_sorted; [apply String.leb_total | apply leb_trans]. Qed.

(** A duplicate-free list in ascending order is in strictly ascending
    order. *)
Lemma sorted_strict (l : list string) :
  NoDup l -> StronglySorted (holds String.leb) l ->
  StronglySorted (holds String.ltb) l.
Proof.
  intros N S. induction S as [|x l S IH F]; [constructor |].
  apply NoDup_cons_iff in N as [Nx N].
  constructor; [now apply IH |].
  apply Forall_forall. intros y Hy.
  assert (L : String.leb x y = true) by (revert y Hy; now apply Forall_forall).
  unfold holds, String.leb, String.ltb in *.
  destruct (String.compare x y) eqn:E; try discriminate; [| reflexivity].
  apply String.compare_eq_iff in E as ->. contradiction.
Qed.

End SortFacts.

(** ** The table builder of [main] *)

Module BuilderSpec.
Import Py PyFacts Doc SortFacts MakeMetadata.

Lemma loop_body_spec (exts : list string) (rows : list Row.t)
    (errors : list (string * string)) (p : DirEntry) :
  loop_body exts (rows, errors) p =
  if considered exts p
  then ((rows ++ record_of p)%list, (errors ++ failure_of p)%list)
  else (rows, errors).
Proof.
  unfold loop_body, considered, record_of, failure_of.
  destruct (is_file p); simpl; [| reflexivity].
  destruct (mem _ exts); simpl; [| reflexivity].
  destruct (parse_filename (name p)); now rewrite app_nil_r.
Qed.

Lemma fold_loop_body (exts : list string) (listing : list DirEntry) :
  forall rows errors,
    fold_left (loop_body exts) listing (rows, errors) =
    ((rows ++ records exts listing)%list, (errors ++ failures exts listing)%list).
Proof.
  unfold records, failures.
  induction listing as [|p l IH]; intros rows errors.
  - simpl. now rewrite !app_nil_r.
  - cbn [fold_left filter]. rewrite loop_body_spec.
    destruct (considered exts p); cbn [flat_map].
    + now rewrite IH, <- !app_assoc.
    + apply IH.
Qed.

Lemma scan_spec (exts : list string) (listing : list DirEntry) :
  scan exts listing = (records exts listing, failures exts listing).
Proof. unfold scan. now rewrite fold_loop_body. Qed.

Lemma records_app (exts : list string) (l1 l2 : list DirEntry) :
  records exts (l1 ++ l2) = (records exts l1 ++ records exts l2)%list.
Proof. unfold records. now rewrite filter_app, flat_map_app. Qed.

Lemma failures_app (exts : list string) (l1 l2 : list DirEntry) :
  failures exts (l1 ++ l2) = (failures exts l1 ++ failures exts l2)%list.
Proof. unfold failures. now rewrite filter_app, flat_map_app. Qed.

(** C5. Over any listing the loop returns the pair of the records and the
    errors: the records of the entries that parse, in listing order; one
    pair of file name and reason for each entry that fails, in listing
    order; every considered entry is in exactly one of the two, and an
    entry that fails changes nothing for the entries around it. *)
Theorem scan_collects (exts : list string) (listing : list DirEntry) :
  scan exts listing = (records exts listing, failures exts listing) /\
  length (records exts listing) + length (failures exts listing)
    = length (filter (considered exts) listing) /\
  (forall l1 p l2 e,
     listing = (l1 ++ p :: l2)%list ->
     considered exts p = true ->
     parse_filename (name p) = Raise e ->
     scan exts listing =
     (records exts (l1 ++ l2),
      (failures exts l1 ++ (name p, exn_str e) :: failures exts l2)%list)).
Proof.
  split; [apply scan_spec | split].
  - unfold records, failures.
    induction (filter (considered exts) listing) as [|p l IH]; simpl;
      [reflexivity |].
    rewrite !length_app, <- IH. unfold record_of, failure_of.
    destruct (parse_filename (name p)); simpl; lia.
  - intros l1 p l2 e -> C P. rewrite scan_spec.
    change (p :: l2) with ([p] ++ l2)%list.
    rewrite !records_app, !failures_app.
    unfold records at 2, failures at 2. simpl. rewrite C. simpl.
    unfold record_of, failure_of. rewrite P. simpl. reflexivity.
Qed.

Lemma scan_collects_witness :
  scan DEFAULT_EXTS (sorted_entries scenario) =
  (records DEFAULT_EXTS
     [ {| name := "DIC_LAB_foo_POL_20x.png"; is_file := true |};
       {| name := "PCM_BIU_glassLube_NA_10x.jpg"; is_file := true |} ],
   [("bad.jpg", "Expected at least 5 tokens separated by '_' but got 1: bad")]).
Proof.
  apply (proj2 (proj2 (scan_collects DEFAULT_EXTS (sorted_entries scenario)))
           [ {| name := "DIC_LAB_foo_POL_20x.png"; is_file := true |};
             {| name := "PCM_BIU_glassLube_NA_10x.jpg"; is_file := true |} ]
           {| name := "bad.jpg"; is_file := true |} []
           (ValueError "Expected at least 5 tokens separated by '_' but got 1: bad"));
    vm_compute; reflexivity.
Defined.

(** [main] runs the loop over the entries of the folder in ascending order
    of their names. *)
Lemma entry_le_total (p q : DirEntry) : entry_le p q = true \/ entry_le q p = true.
Proof. apply String.leb_total. Qed.

Lemma entry_le_trans (p q r : DirEntry) :
  entry_le p q = true -> entry_le q r = true -> entry_le p r = true.
Proof. apply leb_trans. Qed.

Lemma main_spec (args_ext : list string) (iterdir : list DirEntry) :
  main args_ext iterdir =
  (records (normalize_exts args_ext) (sorted_entries iterdir),
   failures (normalize_exts args_ext) (sorted_entries iterdir))
  /\ Permutation (sorted_entries iterdir) iterdir
  /\ StronglySorted (holds entry_le) (sorted_entries iterdir).
Proof.
  split; [apply scan_spec | split].
  - apply sort_perm.
  - apply sort_sorted; [apply entry_le_total | apply entry_le_trans].
Qed.

(** The scenario, refuted as stated: the rows are in the order of the
    sorted names, so the values are not [[10.0, 20.0]]. *)
Lemma scenario_values_not_as_stated :
  ~ (length (fst (main DEFAULT_EXTS scenario)) = 2 /\
     length (snd (main DEFAULT_EXTS scenario)) = 1 /\
     map Row.magnification_value (fst (main DEFAULT_EXTS scenario))
       = [Some (10 # 1)%Q; Some (20 # 1)%Q]).
Proof. vm_compute. intros (_ & _ & H). discriminate H. Qed.

(** C9, amended. From the files [PCM_BIU_glassLube_NA_10x.jpg],
    [DIC_LAB_foo_POL_20x.png] and [bad.jpg] the table has exactly two rows
    and one skipped file, and the values of [magnification_value] in table
    order, which is the order of the sorted names, are [[20.0, 10.0]]. *)
Theorem scenario_table :
  length (fst (main DEFAULT_EXTS scenario)) = 2 /\
  length (snd (main DEFAULT_EXTS scenario)) = 1 /\
  map Row.filename (fst (main DEFAULT_EXTS scenario))
    = ["DIC_LAB_foo_POL_20x.png"; "PCM_BIU_glassLube_NA_10x.jpg"] /\
  map Row.magnification_value (fst (main DEFAULT_EXTS scenario))
    = [Some (20 # 1)%Q; Some (10 # 1)%Q] /\
  map fst (snd (main DEFAULT_EXTS scenario)) = ["bad.jpg"].
Proof. vm_compute. repeat split. Qed.


(** The loop alone, run over the three names in the order in which the
    scenario lists them, would give [[10.0, 20.0]]; [main] sorts first. *)
Example scan_scenario_unsorted :
  map Row.magnification_value (fst (scan DEFAULT_EXTS scenario))
    = [Some (10 # 1)%Q; Some (20 # 1)%Q] /\
  map name (sorted_entries scenario)
    = ["DIC_LAB_foo_POL_20x.png"; "PCM_BIU_glassLube_NA_10x.jpg"; "bad.jpg"].
Proof. split; vm_compute; reflexivity. Qed.

End BuilderSpec.

(** ** Distinct values, selections and partitions *)

Module FrameFacts.
Import Py Doc SortFacts Viewer.

Lemma mem_In (x : string) (l : list string) : mem x l = true <-> In x l.
Proof.
  unfold mem. rewrite existsb_exists. split.
  - intros (y & Hy & E). apply String.eqb_eq in E as ->. assumption.
  - intros H. exists x. split; [assumption | apply String.eqb_refl].
Qed.

Lemma unique_In (x : string) (l : list string) : In x (unique l) <-> In x l.
Proof.
  induction l as [|y l IH]; simpl; [reflexivity |].
  rewrite filter_In, IH, negb_true_iff, String.eqb_neq.
  destruct (string_dec y x) as [-> | N]; [tauto |].
  split; [tauto |]. intros [E | H]; [contradiction | right; split; congruence].
Qed.

Lemma unique_NoDup (l : list string) : NoDup (unique l).
Proof.
  induction l as [|y l IH]; simpl; constructor.
  - rewrite filter_In, negb_true_iff, String.eqb_neq. tauto.
  - now apply NoDup_filter.
Qed.

Lemma distinct_sorted_In (col : Row.t -> string) (df : DataFrame) (x : string) :
  In x (distinct_sorted col df) <-> exists r, In r df /\ col r = x.
Proof.
  unfold distinct_sorted.
  split.
  - intros H. apply (Permutation_in _ (sorted_perm _)) in H.
    apply unique_In, in_map_iff in H as (r & E & Hr). now exists r.
  - intros (r & Hr & E). apply (Permutation_in _ (Permutation_sym (sorted_perm _))).
    apply unique_In, in_map_iff. now exists r.
Qed.

Lemma distinct_sorted_NoDup (col : Row.t -> string) (df : DataFrame) :
  NoDup (distinct_sorted col df).
Proof.
  unfold distinct_sorted.
  apply (Permutation_NoDup (Permutation_sym (sorted_perm _))), unique_NoDup.
Qed.

Lemma distinct_sorted_strict (col : Row.t -> string) (df : DataFrame) :
  StronglySorted (holds String.ltb) (distinct_sorted col df).
Proof.
  apply sorted_strict; [apply distinct_sorted_NoDup | apply sorted_sorted].
Qed.

Lemma filter_all {A : Type} (f : A -> bool) (l : list A) :
  (forall x, In x l -> f x = true) -> filter f l = l.
Proof.
  induction l as [|x l IH]; simpl; intros H; [reflexivity |].
  rewrite (H x) by now left. f_equal. apply IH. intros y Hy. apply H. now right.
Qed.

Lemma filter_none {A : Type} (f : A -> bool) (l : list A) :
  (forall x, In x l -> f x = false) -> filter f l = [].
Proof.
  induction l as [|x l IH]; simpl; intros H; [reflexivity |].
  rewrite (H x) by now left. apply IH. intros y Hy. apply H. now right.
Qed.

Lemma filter_filter {A : Type} (f g : A -> bool) (l : list A) :
  filter f (filter g l) = filter (fun x => g x && f x) l.
Proof.
  induction l as [|x l IH]; simpl; [reflexivity |].
  destruct (g x); simpl; [destruct (f x) |]; now rewrite IH.
Qed.

(** Rows that pass one of two exclusive tests. *)
Lemma filter_either {A : Type} (p q : A -> bool) (l : list A) :
  (forall x, In x l -> p x = true -> q x = true -> False) ->
  Permutation (filter p l ++ filter q l) (filter (fun x => p x || q x) l).
Proof.
  induction l as [|x l IH]; simpl; intros D; [reflexivity |].
  assert (D' : forall y, In y l -> p y = true -> q y = true -> False)
    by (intros y Hy; apply D; now right).
  specialize (IH D').
  destruct (p x) eqn:P, (q x) eqn:Q; simpl.
  - exfalso. apply (D x); auto.
  - now constructor.
  - rewrite <- Permutation_middle. now constructor.
  - assumption.
Qed.

(** Splitting a frame by the values of a key gives back all its rows. *)
Lemma groups_cover {A : Type} (key : A -> string) (keys : list string) :
  NoDup keys -> forall l,
  Permutation
    (concat (map (fun g => filter (fun r => String.eqb (key r) g) l) keys))
    (filter (fun r => mem (key r) keys) l).
Proof.
  induction 1 as [|g ks Ng N IH]; intros l; simpl.
  - rewrite filter_none by reflexivity. reflexivity.
  - rewrite IH. unfold mem at 2. simpl. apply filter_either.
    intros r _ E M. apply String.eqb_eq in E. apply mem_In in M.
    apply Ng. now rewrite <- E.
Qed.

(** The order of [sort_values] is total and transitive. *)
Lemma rows_le_total (by_ : list (Row.t -> string)) (r1 r2 : Row.t) :
  rows_le by_ r1 r2 = true \/ rows_le by_ r2 r1 = true.
Proof.
  induction by_ as [|k ks IH]; simpl; [now left |].
  rewrite (String.compare_antisym (k r1) (k r2)).
  destruct (String.compare (k r2) (k r1)); simpl; auto.
Qed.

Lemma rows_le_trans (by_ : list (Row.t -> string)) (r1 r2 r3 : Row.t) :
  rows_le by_ r1 r2 = true -> rows_le by_ r2 r3 = true ->
  rows_le by_ r1 r3 = true.
Proof.
  induction by_ as [|k ks IH]; simpl; [reflexivity |].
  destruct (String.compare (k r1) (k r2)) eqn:E1; try discriminate;
    destruct (String.compare (k r2) (k r3)) eqn:E2; try discriminate.
  - apply String.compare_eq_iff in E1, E2. rewrite E1, E2, compare_refl.
    exact IH.
  - apply String.compare_eq_iff in E1. rewrite E1, E2. reflexivity.
  - apply String.compare_eq_iff in E2. rewrite <- E2, E1. reflexivity.
  - rewrite (compare_lt_trans _ _ _ E1 E2). reflexivity.
Qed.

Lemma sort_values_perm (by_ : list (Row.t -> string)) (df : DataFrame) :
  Permutation (sort_values by_ df) df.
Proof. apply sort_perm. Qed.

Lemma sort_values_sorted (by_ : list (Row.t -> string)) (df : DataFrame) :
  StronglySorted (holds (rows_le by_)) (sort_values by_ df).
Proof. apply sort_sorted; [apply rows_le_total | apply rows_le_trans]. Qed.

End FrameFacts.

(** ** The comparison groups *)

Module GroupingSpec.
Import Py Doc SortFacts FrameFacts Viewer.

Lemma groupby_cover (col : Row.t -> string) (df : DataFrame) :
  Permutation (concat (map snd (groupby col df))) df.
Proof.
  unfold groupby. rewrite map_map. cbn [snd].
  rewrite (groups_cover col _ (distinct_sorted_NoDup col df) df).
  rewrite filter_all; [reflexivity |].
  intros r Hr. apply mem_In, distinct_sorted_In. now exists r.
Qed.

Lemma groupby_keys (col : Row.t -> string) (df : DataFrame) :
  map fst (groupby col df) = distinct_sorted col df.
Proof. unfold groupby. rewrite map_map. cbn [fst]. apply map_id. Qed.

Lemma groupby_In (col : Row.t -> string) (df : DataFrame) g rows :
  In (g, rows) (groupby col df) ->
  rows = filter (fun r => String.eqb (col r) g) df /\
  exists r, In r df /\ col r = g.
Proof.
  unfold groupby. intros H. apply in_map_iff in H as (g' & E & H).
  injection E as -> <-. split; [reflexivity |].
  now apply distinct_sorted_In.
Qed.

(** What [main] shows: the notice when the frame is empty, and otherwise
    the groups for the value chosen in the select box. *)
Lemma main_shows (ui : Sidebar) (mode : view_mode) (group_axis : axis)
    (df : DataFrame) :
  (df = [] /\ main ui mode group_axis df = NoData "No data matches your filters.")
  \/ (df <> [] /\ exists choice,
        main ui mode group_axis df
        = Groups (groups (pinned_column mode) choice group_axis df)).
Proof.
  destruct df as [|r df]; [left; now destruct mode |].
  right. split; [discriminate |].
  destruct mode; unfold main;
    [ destruct (distinct_sorted Row.sample (r :: df)) eqn:E
    | destruct (distinct_sorted Row.method (r :: df)) eqn:E ];
    try (eexists; reflexivity);
    exfalso;
    [ assert (H : In (Row.sample r) (distinct_sorted Row.sample (r :: df)))
    | assert (H : In (Row.method r) (distinct_sorted Row.method (r :: df))) ];
    try (apply distinct_sorted_In; exists r; split; [now left | reflexivity]);
    rewrite E in H; exact H.
Qed.

(** The comparator of [sort_values([group_axis, "filename"])] is the
    ascending order by (attribute, file name). *)
Lemma rows_le_pair (col : Row.t -> string) (r1 r2 : Row.t) :
  rows_le [col; Row.filename] r1 r2 = true <->
  by_attribute_then_filename col r1 r2.
Proof.
  unfold by_attribute_then_filename, String.ltb, String.leb. simpl.
  destruct (String.compare (col r1) (col r2)) eqn:E.
  - apply String.compare_eq_iff in E. split.
    + intros H. right. split; [assumption |].
      now destruct (String.compare (Row.filename r1) (Row.filename r2)).
    + intros [H | [_ H]]; [discriminate |].
      now destruct (String.compare (Row.filename r1) (Row.filename r2)).
  - split; [now left | reflexivity].
  - split; [discriminate |]. intros [H | [H _]]; [discriminate |].
    rewrite H, compare_refl in E. discriminate.
Qed.

Lemma sorted_impl {A : Type} (R S : A -> A -> Prop) (l : list A) :
  (forall x y, R x y -> S x y) -> StronglySorted R l -> StronglySorted S l.
Proof.
  intros I. induction 1 as [|x l H IH F]; constructor; [assumption |].
  revert F. apply Forall_impl. intros y. apply I.
Qed.

Lemma filenames_sorted (col : Row.t -> string) (g : string) (rows : DataFrame) :
  (forall r, In r rows -> col r = g) ->
  StronglySorted (by_attribute_then_filename col) rows ->
  StronglySorted (holds String.leb) (map Row.filename rows).
Proof.
  intros G. induction 1 as [|x l H IH F]; simpl; constructor.
  - apply IH. intros r Hr. apply G. now right.
  - apply Forall_forall. intros n Hn. apply in_map_iff in Hn as (y & <- & Hy).
    rewrite Forall_forall in F. destruct (F y Hy) as [L | [_ L]]; [| exact L].
    exfalso. rewrite (G x), (G y) in L by (simpl; auto).
    unfold String.ltb in L. rewrite compare_refl in L. discriminate.
Qed.

(** C7. For a frame, a pinned value and a secondary attribute, the groups
    are made of exactly the rows whose pinned column holds the value; each
    group holds the rows with one value of the attribute and is not empty;
    the groups come in strictly ascending order of that value; the rows of
    a group are in ascending order of (attribute, file name), so in
    ascending order of their file names; and when no row holds the pinned
    value there are no groups. *)
Theorem groups_spec (mode : view_mode) (choice : string) (group_axis : axis)
    (df : DataFrame) :
  let gs := groups (pinned_column mode) choice group_axis df in
  Permutation (concat (map snd gs)) (restricted mode choice df) /\
  (forall g rows, In (g, rows) gs ->
     rows <> [] /\
     (forall r, In r rows <->
                In r (restricted mode choice df) /\ column group_axis r = g) /\
     StronglySorted (by_attribute_then_filename (column group_axis)) rows /\
     StronglySorted (holds String.leb) (map Row.filename rows)) /\
  StronglySorted (holds String.ltb) (map fst gs) /\
  ((forall r, In r df -> pinned_column mode r <> choice) -> gs = []).
Proof.
  intros gs. subst gs. unfold groups.
  set (sub := subset (pinned_column mode) choice group_axis df).
  assert (P : Permutation sub (restricted mode choice df))
    by apply sort_values_perm.
  assert (S : StronglySorted
                (by_attribute_then_filename (column group_axis)) sub).
  { apply sorted_impl
      with (R := holds (rows_le [column group_axis; Row.filename])).
    - intros x y. apply rows_le_pair.
    - apply sort_values_sorted. }
  split; [| split; [| split]].
  - now rewrite groupby_cover.
  - intros g rows H. apply groupby_In in H as (-> & r & Hr & E).
    assert (T : StronglySorted (by_attribute_then_filename (column group_axis))
                  (filter (fun r0 => String.eqb (column group_axis r0) g) sub))
      by now apply filter_sorted.
    split; [| split; [| split]].
    + intros N. assert (I : In r (filter (fun r0 => String.eqb (column group_axis r0) g) sub)).
      { apply filter_In. split; [assumption | now apply String.eqb_eq]. }
      rewrite N in I. exact I.
    + intros r0. rewrite filter_In, String.eqb_eq. split.
      * intros [I C]. split; [now apply (Permutation_in _ P) | assumption].
      * intros [I C].
        split; [now apply (Permutation_in _ (Permutation_sym P)) | assumption].
    + exact T.
    + apply (filenames_sorted (column group_axis) g); [| exact T].
      intros r0 I. apply filter_In in I as [_ C]. now apply String.eqb_eq.
  - rewrite groupby_keys. apply distinct_sorted_strict.
  - intros N. subst sub. unfold subset.
    rewrite filter_none; [reflexivity |].
    intros r Hr. apply String.eqb_neq. now apply N.
Qed.

Lemma groups_spec_witness :
  (let rows := [image "DIC" "BIU" "foo" "NA" "10x" (Some (10 # 1)%Q);
                image "PCM" "BIU" "foo" "POL" "10x" (Some (10 # 1)%Q)] in
   rows <> [] /\
   (forall r, In r rows <->
              In r (restricted BySample "foo" gallery)
              /\ column Magnification r = "10x") /\
   StronglySorted (by_attribute_then_filename (column Magnification)) rows /\
   StronglySorted (holds String.leb) (map Row.filename rows)) /\
  Permutation
    (concat (map snd (groups (pinned_column BySample) "foo" Magnification gallery)))
    (restricted BySample "foo" gallery) /\
  StronglySorted (holds String.ltb)
    (map fst (groups (pinned_column BySample) "foo" Magnification gallery)) /\
  groups (pinned_column BySample) "quartz" Magnification gallery = [].
Proof.
  destruct (groups_spec BySample "foo" Magnification gallery) as (P & G & K & _).
  split; [| split; [exact P | split; [exact K |]]].
  - apply (G "10x"). vm_compute. now left.
  - apply (groups_spec BySample "quartz" Magnification gallery).
    intros r H. vm_compute in H.
    repeat (destruct H as [<- | H]; [discriminate |]). destruct H.
Defined.

(** The groups of the sample [foo] by magnification: ["10x"] comes before
    ["5x"], as text, and the two images at [10x] are in the order of their
    file names. *)
Example groups_gallery :
  map (fun g => (fst g, map Row.filename (snd g)))
      (groups Row.sample "foo" Magnification gallery)
  = [ ("10x", ["DIC_BIU_foo_NA_10x.jpg"; "PCM_BIU_foo_POL_10x.jpg"]);
      ("5x", ["PCM_BIU_foo_NA_5x.jpg"]) ].
Proof. vm_compute. reflexivity. Qed.

Example main_gallery :
  main (searching "") BySample Method gallery
  = Groups [ ("DIC", [image "DIC" "LAB" "bar" "NA" "10x" (Some (10 # 1)%Q)]) ]
  /\ main (searching "") ByMethod Sample [] = NoData "No data matches your filters.".
Proof. split; vm_compute; reflexivity. Qed.

End GroupingSpec.

(** ** [filtered_df] *)

Module FilterSpec.
Import Py PyFacts Doc SortFacts FrameFacts Viewer.

Lemma facet_filters_spec (ui : Sidebar) (df : DataFrame) :
  let sel_methods := multiselect ui "Method" (distinct_sorted Row.method df) in
  let sel_locations :=
    multiselect ui "Location" (distinct_sorted Row.location df) in
  let sel_modes := multiselect ui "Mode" (distinct_sorted Row.mode df) in
  let sel_mags :=
    multiselect ui "magnification"
      (distinct_sorted Row.magnification
         (filter (fun row => mem (Row.method row) sel_methods
                             && mem (Row.location row) sel_locations
                             && mem (Row.mode row) sel_modes) df)) in
  facet_filters ui df =
  filter (facets (fun _ => true) sel_methods sel_locations sel_modes sel_mags) df.
Proof.
  intros. unfold facet_filters. rewrite filter_filter.
  apply filter_ext. intros r. unfold facets. reflexivity.
Qed.

(** With every selection at the full set of distinct values, the facets
    keep every row. *)
Lemma facet_filters_identity (ui : Sidebar) (df : DataFrame) :
  multiselect ui "Method" (distinct_sorted Row.method df)
    = distinct_sorted Row.method df ->
  multiselect ui "Location" (distinct_sorted Row.location df)
    = distinct_sorted Row.location df ->
  multiselect ui "Mode" (distinct_sorted Row.mode df)
    = distinct_sorted Row.mode df ->
  multiselect ui "magnification" (distinct_sorted Row.magnification df)
    = distinct_sorted Row.magnification df ->
  facet_filters ui df = df.
Proof.
  intros H1 H2 H3 H4. unfold facet_filters. rewrite H1, H2, H3.
  assert (E : filter (fun row =>
                 mem (Row.method row) (distinct_sorted Row.method df)
                 && mem (Row.location row) (distinct_sorted Row.location df)
                 && mem (Row.mode row) (distinct_sorted Row.mode df)) df = df).
  { apply filter_all. intros r Hr.
    repeat (apply andb_true_iff; split);
      apply mem_In, distinct_sorted_In; now exists r. }
  rewrite E, H4. apply filter_all. intros r Hr.
  apply mem_In, distinct_sorted_In. now exists r.
Qed.

(** The identity filter: an empty search and full selections return the
    table as it is, in content and order. *)
Lemma filtered_df_identity (ui : Sidebar) (df : DataFrame) :
  strip (text_input ui) = "" ->
  multiselect ui "Method" (distinct_sorted Row.method df)
    = distinct_sorted Row.method df ->
  multiselect ui "Location" (distinct_sorted Row.location df)
    = distinct_sorted Row.location df ->
  multiselect ui "Mode" (distinct_sorted Row.mode df)
    = distinct_sorted Row.mode df ->
  multiselect ui "magnification" (distinct_sorted Row.magnification df)
    = distinct_sorted Row.magnification df ->
  filtered_df ui df = Some df.
Proof.
  intros Q H1 H2 H3 H4. unfold filtered_df. rewrite Q. simpl.
  now rewrite facet_filters_identity.
Qed.

(** The facets combine by conjunction: the result is the rows that pass
    the text test and the four selections, in the order of the table. *)
Lemma filtered_df_conjunctive (ui : Sidebar) (df : DataFrame)
    (keep : Row.t -> bool) :
  (if String.eqb (strip (text_input ui)) "" then Some (fun _ => true)
   else text_mask (lower (strip (text_input ui)))) = Some keep ->
  exists sel_methods sel_locations sel_modes sel_mags,
    filtered_df ui df =
    Some (filter (facets keep sel_methods sel_locations sel_modes sel_mags) df).
Proof.
  intros K. unfold filtered_df.
  destruct (String.eqb (strip (text_input ui)) "") eqn:Q; simpl.
  - injection K as <-. do 4 eexists. f_equal. apply facet_filters_spec.
  - rewrite K. do 4 eexists. f_equal.
    rewrite facet_filters_spec, filter_filter.
    apply filter_ext. intros r. unfold facets.
    now rewrite andb_true_l, !andb_assoc.
Qed.

(** For a key of ordinary characters the pattern search is the substring
    test. *)
Lemma compile_ordinary (key : string) :
  all_chars ordinary key = true ->
  exists r, Re.compile key = Some r /\
    forall s c, Re.run r s c (fun _ _ => Some tt)
                = if String.prefix key s then Some tt else None.
Proof.
  induction key as [|a key IH]; simpl; intros H.
  - exists Re.Eps. split; [reflexivity |]. intros s c. now destruct s.
  - apply andb_true_iff in H as [Ha Hk].
    unfold ordinary in Ha. apply andb_true_iff in Ha as [Hs Hd].
    apply negb_true_iff in Hs, Hd. rewrite Hs, Hd.
    destruct (IH Hk) as (r & -> & R).
    eexists. split; [reflexivity |].
    intros s c. destruct s as [|b s]; [reflexivity |].
    cbn [Re.run Re.Chr String.prefix].
    destruct (ascii_dec a b) as [-> | N].
    + rewrite Ascii.eqb_refl. apply R.
    + apply Ascii.eqb_neq in N. now rewrite N.
Qed.

Lemma search_ordinary (key : string) (r : Re.regex) :
  all_chars ordinary key = true -> Re.compile key = Some r ->
  forall s, Re.search r s = is_substring key s.
Proof.
  intros H C. destruct (compile_ordinary key H) as (r' & C' & R).
  rewrite C in C'. injection C' as <-.
  induction s as [|b s IH]; cbn [Re.search is_substring]; rewrite R.
  - now destruct (String.prefix key "").
  - destruct (String.prefix key (String b s)); [reflexivity | apply IH].
Qed.

Lemma text_mask_ordinary (key : string) :
  all_chars ordinary key = true ->
  exists keep, text_mask key = Some keep /\
    forall row, keep row = is_substring key (lower (Row.sample row))
                           || is_substring key (lower (Row.filename row)).
Proof.
  intros H. destruct (compile_ordinary key H) as (r & C & _).
  unfold text_mask. rewrite C. eexists. split; [reflexivity |].
  intros row. cbv beta. now rewrite !(search_ordinary key r H C).
Qed.

(** C6, at a search text with a dot. The search box holds [1.5]; every
    selection is the full set of values. [filtered_df] keeps both rows of
    the table, although [1.5] is a substring neither of the sample
    [mix125] nor of its file name: the text is searched for as a pattern,
    in which the dot stands for any character. Keeping the rows in which
    the text occurs would keep the second row only. *)
Theorem filtered_df_searches_a_pattern :
  filtered_df (searching "1.5") mixes = Some mixes /\
  filter (fun row => is_substring "1.5" (lower (Row.sample row))
                     || is_substring "1.5" (lower (Row.filename row))) mixes
  = [ Row.mk "PCM_BIU_mix1.5_NA_10x.jpg" "PCM" "BIU" "mix1.5" "NA" "10x"
        (Some (10 # 1)%Q) ".jpg" "PCM_BIU_mix1.5_NA_10x.jpg"
        "images/PCM_BIU_mix1.5_NA_10x.jpg" ].
Proof. split; vm_compute; reflexivity. Qed.


Example filtered_df_gallery :
  filtered_df (searching "  ") gallery = Some gallery /\
  option_map (map Row.filename) (filtered_df (searching " Pol ") gallery)
  = Some ["PCM_BIU_foo_POL_10x.jpg"] /\
  filtered_df (searching "(") gallery = None.
Proof. repeat split; vm_compute; reflexivity. Qed.

End FilterSpec.

(** ** [load_metadata] *)

Module LoadSpec.
Import Py PyFacts Doc SortFacts FrameFacts Viewer.

Section Load.
Context {cell : Type}.
Variable NA : cell.
Variable to_numeric : cell -> cell.
Variable astype_str : cell -> cell.
Variable full_path_of : cell -> cell.

Lemma find_col_some (key : string) (l : list (string * list cell)) :
  In key (map fst l) -> exists v, find_col key l = Some v.
Proof.
  induction l as [|[c v] l IH]; simpl; [intros [] |].
  destruct (String.eqb_spec c key) as [-> | N]; [eauto |].
  intros [E | H]; [contradiction | now apply IH].
Qed.

Lemma find_col_none (key : string) (l : list (string * list cell)) :
  ~ In key (map fst l) -> find_col key l = None.
Proof.
  induction l as [|[c v] l IH]; simpl; [reflexivity |].
  intros N. destruct (String.eqb_spec c key) as [-> | _]; [tauto |].
  apply IH. tauto.
Qed.

Lemma getitem_ok (key : string) (df : Frame cell) :
  In key (columns df) -> exists v, getitem key df = Ok v.
Proof.
  intros H. unfold getitem.
  destruct (find_col_some key (cols df) H) as (v & ->). eauto.
Qed.

Lemma getitem_raise (key : string) (df : Frame cell) :
  ~ In key (columns df) -> getitem key df = Raise (KeyError key).
Proof. intros H. unfold getitem. now rewrite find_col_none. Qed.

Lemma columns_setitem (key x : string) (v : list cell) (df : Frame cell) :
  In x (columns (setitem key v df)) <-> In x (columns df) \/ x = key.
Proof.
  unfold columns, setitem. simpl.
  induction (cols df) as [|[c w] l IH]; simpl.
  - split; [intros [<- | []]; auto | intros [[] | ->]; auto].
  - destruct (String.eqb_spec c key) as [-> | N]; simpl.
    + split; [tauto |]. intros [H | ->]; auto.
    + rewrite IH. tauto.
Qed.

Lemma columns_rename (f : string -> string) (df : Frame cell) :
  columns (rename f df) = map f (columns df).
Proof. unfold columns, rename. simpl. now rewrite !map_map. Qed.

Lemma set_minus_In (a b : list string) (x : string) :
  In x (set_minus a b) <-> In x a /\ ~ In x b.
Proof.
  unfold set_minus. rewrite filter_In, negb_true_iff.
  split; intros [H N]; split; try assumption.
  - intros I. apply mem_In in I. congruence.
  - destruct (mem x b) eqn:M; [| reflexivity]. apply mem_In in M. contradiction.
Qed.

Lemma stringify_ok (cs : list string) :
  forall df : Frame cell,
    (forall c, In c cs -> In c (columns df)) ->
    exists df', stringify astype_str cs df = Ok df' /\
                forall x, In x (columns df') <-> In x (columns df).
Proof.
  induction cs as [|c cs IH]; intros df H; simpl.
  - exists df. now split.
  - destruct (getitem_ok c df) as (v & ->); [apply H; now left |].
    destruct (IH (setitem c (map astype_str v) df)) as (df' & -> & E).
    + intros x Hx. apply columns_setitem. left. apply H. now right.
    + exists df'. split; [reflexivity |].
      intros x. rewrite E, columns_setitem. split; [| tauto].
      intros [I | ->]; [assumption | apply H; now left].
Qed.

(** The labels checked by the validation: those of the file, normalised,
    and [full_path]. *)
Lemma validated_columns (df : Frame cell) (v : list cell) (x : string) :
  In x (columns (rename (fun c => lower (strip c)) (setitem "full_path" v df)))
  <-> In x (normalized (columns df)) \/ x = "full_path".
Proof.
  rewrite columns_rename. unfold normalized. rewrite !in_map_iff. split.
  - intros (y & <- & Hy). apply columns_setitem in Hy as [Hy | ->].
    + left. now exists y.
    + now right.
  - intros [(y & <- & Hy) | ->].
    + exists y. split; [reflexivity |]. apply columns_setitem. now left.
    + exists "full_path". split; [reflexivity |]. apply columns_setitem. now right.
Qed.

Lemma required_not_full_path (x : string) : In x required -> x <> "full_path".
Proof.
  unfold required. simpl. intros H ->.
  repeat (destruct H as [H | H]; [discriminate H |]). exact H.
Qed.

(** A file without a [rel_path] label is not validated at all: building
    [full_path] raises [KeyError]. *)
Lemma load_metadata_needs_rel_path (df : Frame cell) :
  ~ In "rel_path" (columns df) ->
  load_metadata NA to_numeric astype_str full_path_of df
  = Raised (KeyError "rel_path").
Proof. intros H. unfold load_metadata. now rewrite getitem_raise. Qed.

End Load.

(** C8 as stated does not hold of [magnification_value]: a file with the
    eight other columns and without it is loaded. *)
Lemma load_metadata_value_not_required :
  ~ In "magnification_value" (columns csv_without_value) /\
  ~ exists error, load_csv csv_without_value = Stopped error.
Proof.
  split.
  - vm_compute. intros H.
    repeat (destruct H as [H | H]; [discriminate H |]). exact H.
  - intros (error & H). vm_compute in H. discriminate H.
Qed.

(** C10, at a file whose headers differ from the expected ones in the case
    of [Rel_Path] only: [load_metadata] raises [KeyError] on [rel_path]
    before it normalises the headers, so the file is not loaded. *)
Theorem load_metadata_Rel_Path :
  normalized (columns csv_with_Rel_Path)
  = ["filename"; "method"; "location"; "sample"; "mode"; "magnification";
     "magnification_value"; "ext"; "rel_path"] /\
  load_csv csv_with_Rel_Path = Raised (KeyError "rel_path").
Proof. split; vm_compute; reflexivity. Qed.

End LoadSpec.

(** ** More on [parse_filename]: what a record keeps of the file name *)

Module ParserExtras.
Import Py PyFacts Doc MagnificationFacts ParserSpec MakeMetadata.

Lemma join_app (sep : string) (l1 l2 : list string) :
  l1 <> [] -> l2 <> [] ->
  join sep (l1 ++ l2) = join sep l1 ++ sep ++ join sep l2.
Proof.
  induction l1 as [|t l1 IH]; intros N1 N2; [congruence |].
  destruct l1 as [|u l1].
  - simpl app. now rewrite join_cons.
  - change ((t :: u :: l1) ++ l2)%list with (t :: ((u :: l1) ++ l2))%list.
    rewrite join_cons by discriminate.
    rewrite IH by (assumption || discriminate).
    rewrite (join_cons sep t (u :: l1)) by discriminate.
    now rewrite !append_assoc.
Qed.

Lemma join_nested (sep a b c d : string) (mid : list string) :
  mid <> [] ->
  join sep [a; b; join sep mid; c; d] = join sep (a :: b :: mid ++ [c; d]).
Proof.
  intros N.
  rewrite (join_cons sep a (b :: mid ++ [c; d])) by discriminate.
  rewrite (join_cons sep b (mid ++ [c; d])) by (destruct mid; discriminate).
  rewrite join_app by (assumption || discriminate).
  reflexivity.
Qed.

Lemma substring_split (s : string) :
  forall i, i <= String.length s ->
    substring 0 i s ++ substring i (String.length s - i) s = s.
Proof.
  induction s as [|a s IH]; intros i H.
  - destruct i; [reflexivity | simpl in H; lia].
  - destruct i as [|i].
    + simpl. f_equal. clear. induction s as [|b s IH]; simpl; [reflexivity |].
      now rewrite IH.
    + simpl in H. cbn [substring String.length Nat.sub append].
      f_equal. apply IH. lia.
Qed.

(** The stem and the suffix make up the name. *)
Lemma stem_suffix (p : string) : stem p ++ suffix p = path_name p.
Proof.
  unfold stem, suffix. destruct (dot_index (path_name p)) as [i|] eqn:E.
  - apply substring_split. unfold dot_index in E.
    destruct (rfind "." (path_name p)) as [j|]; [| discriminate].
    destruct ((0 <? j) && (j <? String.length (path_name p) - 1)) eqn:B;
      [| discriminate].
    injection E as <-. apply andb_true_iff in B as [_ B].
    apply Nat.ltb_lt in B. lia.
  - apply append_nil_r.
Qed.

(** The fields of a parsed record, whatever the number of tokens. *)
Lemma parse_filename_fields (name : string) (rec : Rec.t) :
  parse_filename name = Ok rec ->
  5 <= len (tokens name) /\
  rec = Rec.mk (item (tokens name) 0) (item (tokens name) 1)
               (join "_" (slice_to_back (tokens name) 2 2))
               (item_back (tokens name) 2) (item_back (tokens name) 1)
               (mag_value_of (item_back (tokens name) 1))
               (lower (suffix name)) /\
  slice_to_back (tokens name) 2 2 <> [].
Proof.
  intros P.
  assert (H : 5 <= len (tokens name)).
  { destruct (Nat.lt_ge_cases (len (tokens name)) 5) as [L | L]; [| assumption].
    rewrite (parse_filename_raise name L) in P. discriminate. }
  rewrite (parse_filename_ok name H) in P. injection P as <-.
  pose proof (tokens_shape (tokens name) ltac:(lia)) as S.
  assert (N : slice_to_back (tokens name) 2 2 <> []).
  { intros E. rewrite E in S. apply (f_equal (@length _)) in S.
    simpl in S. unfold len in H. lia. }
  split; [assumption | split; [| assumption]].
  destruct (Nat.eqb_spec (len (tokens name)) 5) as [E | _]; [| reflexivity].
  f_equal.
  destruct (slice_to_back (tokens name) 2 2) as [|x [|y m]] eqn:M;
    [congruence | |].
  - rewrite S. reflexivity.
  - apply (f_equal (@length _)) in S. simpl in S. rewrite length_app in S.
    simpl in S. unfold len in E. lia.
Qed.

(** X1. The five fields of a parsed record, joined by the separator and
    followed by the suffix of the file name, give the file name back; the
    stored extension is that suffix in lower case. *)
Theorem parse_filename_reassembles (name : string) (rec : Rec.t) :
  parse_filename name = Ok rec ->
  join "_" [Rec.method rec; Rec.location rec; Rec.sample rec; Rec.mode rec;
            Rec.magnification rec] ++ suffix name = path_name name
  /\ Rec.ext rec = lower (suffix name).
Proof.
  intros P. destruct (parse_filename_fields name rec P) as (H & -> & N).
  cbn [Rec.method Rec.location Rec.sample Rec.mode Rec.magnification Rec.ext].
  split; [| reflexivity].
  rewrite join_nested by assumption.
  rewrite <- (tokens_shape (tokens name)) by lia.
  unfold tokens. change "_"%string with (String "_"%char "").
  rewrite join_split. apply stem_suffix.
Qed.

Lemma parse_filename_reassembles_witness :
  join "_" ["PCM"; "BIU"; "glass_lube_extra"; "NA"; "10x"] ++ ".JPG"
  = "PCM_BIU_glass_lube_extra_NA_10x.JPG".
Proof.
  assert (P : parse_filename "PCM_BIU_glass_lube_extra_NA_10x.JPG"
              = Ok (Rec.mk "PCM" "BIU" "glass_lube_extra" "NA" "10x"
                           (Some (10 # 1)%Q) ".jpg"))
    by (vm_compute; reflexivity).
  exact (proj1 (parse_filename_reassembles _ _ P)).
Defined.

(** X2. In a parsed record the method, the location, the mode and the raw
    magnification never hold the separator; with exactly five tokens the
    sample holds none either. *)
Theorem parse_filename_fields_separator_free (name : string) (rec : Rec.t) :
  parse_filename name = Ok rec ->
  let free s := all_chars (fun a => negb (Ascii.eqb a "_")) s = true in
  free (Rec.method rec) /\ free (Rec.location rec) /\ free (Rec.mode rec) /\
  free (Rec.magnification rec) /\
  (len (tokens name) = 5 -> free (Rec.sample rec)).
Proof.
  intros P free. destruct (parse_filename_fields name rec P) as (H & E & N).
  assert (T : forall i, i < len (tokens name) -> free (nth i (tokens name) "")).
  { intros i Hi. apply (split_tokens_free "_" (stem name)).
    now apply nth_In. }
  pose proof (parse_filename_ok name H) as O. rewrite P in O.
  injection O as ->.
  cbn [Rec.method Rec.location Rec.sample Rec.mode Rec.magnification].
  unfold item, item_back. repeat split; try (apply T; unfold len in *; lia).
  intros L. rewrite L. cbn [Nat.eqb]. apply T. lia.
Qed.

Lemma parse_filename_fields_separator_free_witness :
  all_chars (fun a => negb (Ascii.eqb a "_")) "glassLube" = true.
Proof.
  assert (P : parse_filename "PCM_BIU_glassLube_NA_10x.jpg"
              = Ok (Rec.mk "PCM" "BIU" "glassLube" "NA" "10x"
                           (Some (10 # 1)%Q) ".jpg"))
    by (vm_compute; reflexivity).
  apply (proj2 (proj2 (proj2 (proj2
           (parse_filename_fields_separator_free _ _ P))))).
  vm_compute. reflexivity.
Defined.

End ParserExtras.

(** ** More on the table builder: extensions, order, accounting, report *)

Module BuilderExtras.
Import Py PyFacts Doc SortFacts MagnificationFacts ParserSpec ParserExtras
       BuilderSpec MakeMetadata.

Lemma digits_value_nonneg (s : string) :
  forall acc, (0 <= acc)%Z -> (0 <= digits_value acc s)%Z.
Proof.
  induction s as [|a s IH]; intros acc H; simpl; [assumption |].
  apply IH. unfold digit_value. lia.
Qed.

Lemma float_of_str_nonneg (g : string) (v : Q) :
  float_of_str g = Some v -> (0 <= v)%Q.
Proof.
  unfold float_of_str.
  destruct (split "." g) as [|i [|f [|x l]]]; try discriminate.
  - destruct (is_digits i); [| discriminate]. intros [= <-].
    unfold Qle. simpl. pose proof (digits_value_nonneg i 0%Z). lia.
  - destruct (is_digits i && is_digits f); [| discriminate]. intros E.
    pose proof (digits_value_nonneg (i ++ f) 0%Z) as N.
    set (q := (digits_value 0 (i ++ f)
               # Z.to_pos (10 ^ Z.of_nat (String.length f)))%Q) in *.
    assert (V : (v == q)%Q)
      by (replace v with (Qred q) by congruence; apply Qred_correct).
    rewrite V. unfold Qle, q. simpl. lia.
Qed.

(** X3. A numeric magnification is never negative: the pattern has no
    sign, so a raw text such as [-5x] gets no value. *)
Theorem mag_value_of_nonneg (mag_text : string) (v : Q) :
  mag_value_of mag_text = Some v -> (0 <= v)%Q.
Proof.
  intros H. apply mag_value_of_some in H as (g & _ & F).
  now apply float_of_str_nonneg with g.
Qed.

Lemma mag_value_of_nonneg_witness : (0 <= 21 # 2)%Q.
Proof. apply (mag_value_of_nonneg "10.5 X"). vm_compute. reflexivity. Defined.

(** [str.lower] changes nothing in a text already in lower case, and only
    a dot becomes a dot. *)
Lemma lower_char_idem (a : ascii) : lower_char (lower_char a) = lower_char a.
Proof. destruct a as [[] [] [] [] [] [] [] []]; reflexivity. Qed.

Lemma lower_char_dot (a : ascii) :
  Ascii.eqb (lower_char a) "." = Ascii.eqb a ".".
Proof. destruct a as [[] [] [] [] [] [] [] []]; reflexivity. Qed.

Lemma lower_idem (s : string) : lower (lower s) = lower s.
Proof.
  induction s as [|a s IH]; simpl; [reflexivity |].
  now rewrite lower_char_idem, IH.
Qed.

Lemma startswith_dot (s : string) :
  startswith "." s = match s with
                     | String a _ => Ascii.eqb a "."
                     | EmptyString => false
                     end.
Proof.
  unfold startswith. destruct s as [|a s]; [reflexivity |].
  cbn [String.prefix].
  destruct (ascii_dec "." a) as [<- | N]; [now destruct s |].
  symmetry. apply Ascii.eqb_neq. congruence.
Qed.

Lemma startswith_dot_lower (s : string) :
  startswith "." (lower s) = startswith "." s.
Proof.
  rewrite !startswith_dot. destruct s as [|a s]; [reflexivity |].
  simpl. apply lower_char_dot.
Qed.

Lemma normalize_ext_shape (e : string) :
  let e' := if startswith "." e then lower e else "." ++ lower e in
  startswith "." e' = true /\ lower e' = e'.
Proof.
  simpl. destruct (startswith "." e) eqn:S.
  - split; [now rewrite startswith_dot_lower | apply lower_idem].
  - split; [now rewrite startswith_dot |].
    cbn [lower]. now rewrite lower_idem.
Qed.

(** X4. Every extension of the allow-list is brought to lower case with a
    leading dot; the case in which an extension was given is immaterial,
    and normalising twice changes nothing. *)
Theorem normalize_exts_canonical (args_ext : list string) :
  (forall e, In e (normalize_exts args_ext) ->
     startswith "." e = true /\ lower e = e) /\
  normalize_exts (map lower args_ext) = normalize_exts args_ext /\
  normalize_exts (normalize_exts args_ext) = normalize_exts args_ext.
Proof.
  split; [| split].
  - intros e H. unfold normalize_exts in H.
    apply in_map_iff in H as (x & <- & _). apply normalize_ext_shape.
  - unfold normalize_exts. rewrite map_map. apply map_ext. intros x.
    now rewrite startswith_dot_lower, lower_idem.
  - unfold normalize_exts at 1. rewrite <- (map_id (normalize_exts args_ext)) at 2.
    apply map_ext_in. intros e H. unfold normalize_exts in H.
    apply in_map_iff in H as (x & <- & _).
    destruct (normalize_ext_shape x) as [-> ->]. reflexivity.
Qed.

Lemma normalize_exts_canonical_witness :
  startswith "." ".jpg" = true /\ lower ".jpg" = ".jpg".
Proof.
  apply (proj1 (normalize_exts_canonical ["JPG"; ".Png"]) ".jpg").
  vm_compute. now left.
Defined.

(** The names of the rows and of the errors follow the listing. *)
Lemma record_of_names (p : DirEntry) :
  map Row.filename (record_of p) = map (fun _ => name p) (record_of p).
Proof. unfold record_of. now destruct (parse_filename (name p)). Qed.

Lemma records_names_sorted (exts : list string) (l : list DirEntry) :
  StronglySorted (holds String.leb) (map name l) ->
  StronglySorted (holds String.leb) (map Row.filename (records exts l)) /\
  Forall (fun n => In n (map name l)) (map Row.filename (records exts l)).
Proof.
  unfold records. induction l as [|p l IH]; simpl; intros S.
  - split; constructor.
  - apply StronglySorted_inv in S as [S F]. destruct (IH S) as [IS IF].
    assert (W : Forall (fun n => In n (name p :: map name l))
                  (map Row.filename
                     (flat_map record_of (filter (considered exts) l)))).
    { revert IF. apply Forall_impl. intros n Hn. now right. }
    destruct (considered exts p); simpl; [| now split].
    unfold record_of at 1 3. destruct (parse_filename (name p)); simpl;
      [| now split].
    split.
    + constructor; [assumption |].
      rewrite Forall_forall in *. intros n Hn. apply F, IF, Hn.
    + constructor; [now left | assumption].
Qed.

Lemma failures_names_sorted (exts : list string) (l : list DirEntry) :
  StronglySorted (holds String.leb) (map name l) ->
  StronglySorted (holds String.leb) (map fst (failures exts l)) /\
  Forall (fun n => In n (map name l)) (map fst (failures exts l)).
Proof.
  unfold failures. induction l as [|p l IH]; simpl; intros S.
  - split; constructor.
  - apply StronglySorted_inv in S as [S F]. destruct (IH S) as [IS IF].
    assert (W : Forall (fun n => In n (name p :: map name l))
                  (map fst (flat_map failure_of (filter (considered exts) l)))).
    { revert IF. apply Forall_impl. intros n Hn. now right. }
    destruct (considered exts p); simpl; [| now split].
    unfold failure_of at 1 3. destruct (parse_filename (name p)); simpl;
      [now split |].
    split.
    + constructor; [assumption |].
      rewrite Forall_forall in *. intros n Hn. apply F, IF, Hn.
    + constructor; [now left | assumption].
Qed.

Lemma sorted_entries_names (iterdir : list DirEntry) :
  StronglySorted (holds String.leb) (map name (sorted_entries iterdir)).
Proof.
  pose proof (sort_sorted entry_le entry_le_total entry_le_trans iterdir) as S.
  fold (sorted_entries iterdir) in S.
  induction S as [|p l S IH F]; simpl; constructor; [assumption |].
  apply Forall_forall. intros n Hn. apply in_map_iff in Hn as (q & <- & Hq).
  rewrite Forall_forall in F. exact (F q Hq).
Qed.

(** X5. The rows that [main] writes are in ascending order of their file
    names, whatever the order in which the folder lists its entries, and so
    are the skipped files. *)
Theorem main_rows_sorted (args_ext : list string) (iterdir : list DirEntry) :
  StronglySorted (holds String.leb)
    (map Row.filename (fst (main args_ext iterdir))) /\
  StronglySorted (holds String.leb) (map fst (snd (main args_ext iterdir))).
Proof.
  unfold main. rewrite scan_spec. simpl. split.
  - apply records_names_sorted, sorted_entries_names.
  - apply failures_names_sorted, sorted_entries_names.
Qed.

Lemma filter_perm {A : Type} (f : A -> bool) (l l' : list A) :
  Permutation l l' -> Permutation (filter f l) (filter f l').
Proof.
  induction 1 as [|x l l' P IH|x y l|l l' l'' P1 IH1 P2 IH2]; simpl.
  - constructor.
  - destruct (f x); [now constructor | assumption].
  - destruct (f x), (f y); try reflexivity. apply perm_swap.
  - now transitivity (filter f l').
Qed.

Lemma names_accounted (exts : list string) (l : list DirEntry) :
  Permutation
    (map Row.filename (records exts l) ++ map fst (failures exts l))%list
    (map name (filter (considered exts) l)).
Proof.
  unfold records, failures.
  induction (filter (considered exts) l) as [|p k IH]; simpl; [constructor |].
  rewrite !map_app. unfold record_of at 1, failure_of at 1.
  destruct (parse_filename (name p)); simpl.
  - now constructor.
  - rewrite <- Permutation_middle. now constructor.
Qed.

(** X6. Every file of the folder that has an allowed extension is either
    a row of the table or a skipped file, once: the names of the rows and
    of the skipped files are, together, the names of those files. *)
Theorem main_accounts_for_every_file (args_ext : list string)
    (iterdir : list DirEntry) :
  Permutation
    (map Row.filename (fst (main args_ext iterdir))
     ++ map fst (snd (main args_ext iterdir)))%list
    (map name (filter (considered (normalize_exts args_ext)) iterdir)).
Proof.
  unfold main. rewrite scan_spec. simpl. rewrite names_accounted.
  apply Permutation_map, filter_perm, sort_perm.
Qed.

Lemma records_In (exts : list string) (l : list DirEntry) (row : Row.t) :
  In row (records exts l) ->
  exists p rec, In p l /\ considered exts p = true /\
    parse_filename (name p) = Ok rec /\
    row = Row.mk (name p) (Rec.method rec) (Rec.location rec)
                 (Rec.sample rec) (Rec.mode rec) (Rec.magnification rec)
                 (Rec.magnification_value rec) (Rec.ext rec) (name p).
Proof.
  unfold records. intros H. apply in_flat_map in H as (p & Hp & H).
  apply filter_In in Hp as [Hp C]. unfold record_of in H.
  destruct (parse_filename (name p)) as [rec|e] eqn:P; [| destruct H].
  destruct H as [<- | []]. now exists p, rec.
Qed.

Lemma failures_In (exts : list string) (l : list DirEntry) n msg :
  In (n, msg) (failures exts l) ->
  exists p e, In p l /\ considered exts p = true /\ name p = n /\
    parse_filename n = Raise e /\ msg = exn_str e.
Proof.
  unfold failures. intros H. apply in_flat_map in H as (p & Hp & H).
  apply filter_In in Hp as [Hp C]. unfold failure_of in H.
  destruct (parse_filename (name p)) as [rec|e] eqn:P; [destruct H |].
  destruct H as [E | []]. injection E as <- <-. now exists p, e.
Qed.

(** X7. Each row of the table is the parse of a file of the folder: its
    [filename] and [rel_path] are the name of that file, its other fields
    are those of [parse_filename] on that name, and its [ext] is one of the
    normalised allowed extensions, so it starts with a dot. Each skipped
    file is a file of the folder with fewer than five tokens, reported
    with the message of that failure. *)
Theorem main_table_sound (args_ext : list string) (iterdir : list DirEntry) :
  (forall row, In row (fst (main args_ext iterdir)) ->
     exists p rec,
       In p iterdir /\ is_file p = true /\
       Row.filename row = name p /\ Row.rel_path row = name p /\
       parse_filename (name p) = Ok rec /\
       Row.method row = Rec.method rec /\
       Row.location row = Rec.location rec /\
       Row.sample row = Rec.sample rec /\
       Row.mode row = Rec.mode rec /\
       Row.magnification row = Rec.magnification rec /\
       Row.magnification_value row = Rec.magnification_value rec /\
       Row.ext row = lower (suffix (name p)) /\
       In (Row.ext row) (normalize_exts args_ext) /\
       startswith "." (Row.ext row) = true) /\
  (forall n msg, In (n, msg) (snd (main args_ext iterdir)) ->
     exists p, In p iterdir /\ is_file p = true /\ name p = n /\
       len (tokens n) < 5 /\
       msg = too_few_tokens (len (tokens n)) (stem n)).
Proof.
  unfold main. rewrite scan_spec. simpl. split.
  - intros row H. apply records_In in H as (p & rec & Hp & C & P & ->).
    exists p, rec. simpl.
    apply (Permutation_in _ (sort_perm entry_le iterdir)) in Hp.
    unfold considered in C. apply andb_true_iff in C as [F M].
    destruct (parse_filename_fields _ _ P) as (_ & E & _).
    assert (X : Rec.ext rec = lower (suffix (name p))) by (rewrite E; reflexivity).
    rewrite X. repeat split; try assumption.
    + unfold mem in M. apply existsb_exists in M as (e & He & Q).
      apply String.eqb_eq in Q. now rewrite Q.
    + unfold mem in M. apply existsb_exists in M as (e & He & Q).
      apply String.eqb_eq in Q. rewrite Q.
      unfold normalize_exts in He. apply in_map_iff in He as (x & <- & _).
      apply normalize_ext_shape.
  - intros n msg H. apply failures_In in H as (p & e & Hp & C & <- & P & ->).
    exists p.
    apply (Permutation_in _ (sort_perm entry_le iterdir)) in Hp.
    unfold considered in C. apply andb_true_iff in C as [F _].
    assert (L : len (tokens (name p)) < 5).
    { destruct (Nat.lt_ge_cases (len (tokens (name p))) 5) as [L | L];
        [assumption |].
      rewrite (parse_filename_ok _ L) in P. discriminate. }
    rewrite (parse_filename_raise _ L) in P. injection P as <-.
    repeat split; assumption.
Qed.

Lemma main_table_sound_witness :
  exists p, In p scenario /\ is_file p = true /\ name p = "bad.jpg" /\
    len (tokens "bad.jpg") < 5 /\
    "Expected at least 5 tokens separated by '_' but got 1: bad"
    = too_few_tokens (len (tokens "bad.jpg")) (stem "bad.jpg").
Proof.
  apply (proj2 (main_table_sound DEFAULT_EXTS scenario)).
  vm_compute. now left.
Defined.

Lemma report_shape (csv_path : string) (rows : list Row.t)
    (errors : list (string * string)) :
  exists notice wrote skipped,
    length notice <= 1 /\
    report csv_path (rows, errors) =
    app notice
        (wrote ::
         match errors with
         | [] => []
         | _ :: _ =>
             skipped ::
             app (map skipped_line (firstn 20 errors))
                 (if 20 <? len errors
                  then ["  ... and " ++ str_of_nat (len errors - 20) ++ " more"]
                  else [])
         end).
Proof.
  unfold report. do 3 eexists. split; [| reflexivity].
  destruct rows; simpl; lia.
Qed.

(** X8. The report on the skipped files is bounded and complete: at most
    twenty of them are listed, each of the first twenty has its line, and
    beyond twenty the last line states how many are not listed; the whole
    report never has more than twenty-four lines. *)
Theorem report_bounded (csv_path : string) (rows : list Row.t)
    (errors : list (string * string)) :
  length (report csv_path (rows, errors)) <= 24 /\
  (forall e, In e (firstn 20 errors) ->
     In (skipped_line e) (report csv_path (rows, errors))) /\
  (20 < len errors ->
   last (report csv_path (rows, errors)) ""
   = "  ... and " ++ str_of_nat (len errors - 20) ++ " more"
   /\ length (firstn 20 errors) + (len errors - 20) = len errors) /\
  (len errors <= 20 ->
   forall e, In e errors -> In (skipped_line e) (report csv_path (rows, errors))).
Proof.
  assert (B : length (firstn 20 errors) <= 20) by apply firstn_le_length.
  destruct (report_shape csv_path rows errors)
    as (notice & wrote & skipped & N & ->).
  set (more := "  ... and " ++ str_of_nat (len errors - 20) ++ " more").
  assert (I : forall e, In e (firstn 20 errors) ->
     In (skipped_line e)
        (app notice
           (wrote ::
            match errors with
            | [] => []
            | _ :: _ =>
                skipped ::
                app (map skipped_line (firstn 20 errors))
                    (if 20 <? len errors then [more] else [])
            end))).
  { intros e He. apply in_or_app. right. right.
    destruct errors as [|e0 errors]; [destruct He |].
    right. apply in_or_app. left. now apply in_map. }
  split; [| split; [exact I | split]].
  - rewrite length_app. cbn [length].
    destruct errors as [|e0 errors].
    + simpl. lia.
    + cbn [length]. rewrite length_app, length_map.
      assert (length (if 20 <? len (e0 :: errors) then [more] else []) <= 1)
        by (destruct (20 <? len (e0 :: errors)); simpl; lia).
      lia.
  - intros L. split.
    + destruct errors as [|e0 errors]; [unfold len in L; simpl in L; lia |].
      apply Nat.ltb_lt in L. rewrite L.
      rewrite !app_comm_cons, app_assoc. apply last_last.
    + rewrite length_firstn. unfold len in *. lia.
  - intros L e He. apply I. now rewrite firstn_all2.
Qed.

Lemma report_bounded_witness :
  In "  - bad.jpg: Expected at least 5 tokens separated by '_' but got 1: bad"
     (report "metadata.csv" (main DEFAULT_EXTS scenario)).
Proof.
  apply (proj2 (proj2 (proj2
          (report_bounded "metadata.csv"
             (fst (main DEFAULT_EXTS scenario))
             (snd (main DEFAULT_EXTS scenario)))))
          ltac:(vm_compute; lia)
          ("bad.jpg", "Expected at least 5 tokens separated by '_' but got 1: bad")).
  vm_compute. now left.
Defined.

End BuilderExtras.

(** ** [grid_show]: where each image goes *)

Module GridSpec.
Import Py Doc Viewer.

Lemma div_mod_succ (n m : nat) :
  0 < n ->
  (S (m mod n) < n /\ S m / n = m / n /\ S m mod n = S (m mod n)) \/
  (S (m mod n) = n /\ S m / n = S (m / n) /\ S m mod n = 0).
Proof.
  intros H. pose proof (Nat.div_mod_eq m n) as E.
  pose proof (Nat.mod_upper_bound m n ltac:(lia)) as B.
  destruct (Nat.eq_dec (S (m mod n)) n) as [T | T].
  - right. split; [assumption |].
    assert (U : S m = n * S (m / n) + 0) by nia.
    split.
    + symmetry. apply (Nat.div_unique (S m) n (S (m / n)) 0); lia.
    + symmetry. apply (Nat.mod_unique (S m) n (S (m / n)) 0); lia.
  - left. split; [lia |].
    assert (U : S m = n * (m / n) + S (m mod n)) by lia.
    split.
    + symmetry. apply (Nat.div_unique (S m) n (m / n) (S (m mod n))); lia.
    + symmetry. apply (Nat.mod_unique (S m) n (m / n) (S (m mod n))); lia.
Qed.

Lemma combine_snoc {A B : Type} (l : list A) (l' : list B) (a : A) (b : B) :
  length l = length l' ->
  combine (l ++ [a]) (l' ++ [b]) = (combine l l' ++ [(a, b)])%list.
Proof.
  revert l'. induction l as [|x l IH]; intros [|y l'] H; simpl in *;
    try discriminate; [reflexivity |].
  f_equal. apply IH. now injection H.
Qed.

Lemma map_snd_seq {A : Type} (l : list A) :
  forall s, map snd (combine (seq s (length l)) l) = l.
Proof.
  induction l as [|x l IH]; intros s; simpl; [reflexivity |].
  now rewrite IH.
Qed.

Lemma enumerate_snoc {A : Type} (l : list A) (x : A) :
  enumerate (l ++ [x]) = (enumerate l ++ [(length l, x)])%list.
Proof.
  unfold enumerate. rewrite length_app, Nat.add_1_r, seq_S. simpl.
  apply combine_snoc. apply length_seq.
Qed.

Lemma rows_of_column_snoc {A : Type} (n j : nat) (l : list A) (x : A) :
  rows_of_column n j (l ++ [x]) =
  (rows_of_column n j l ++ if length l mod n =? j then [x] else [])%list.
Proof.
  unfold rows_of_column. rewrite enumerate_snoc, filter_app, map_app. simpl.
  now destruct (length l mod n =? j).
Qed.

(** The number of rows in a column. *)
Lemma rows_of_column_length {A : Type} (n j : nat) (l : list A) :
  0 < n -> j < n ->
  length (rows_of_column n j l)
  = length l / n + (if j <? length l mod n then 1 else 0).
Proof.
  intros Hn Hj. induction l as [|x l IH] using rev_ind.
  - simpl. rewrite Nat.Div0.div_0_l, Nat.Div0.mod_0_l. reflexivity.
  - rewrite rows_of_column_snoc, !length_app, IH. simpl length.
    rewrite Nat.add_1_r.
    destruct (div_mod_succ n (length l) Hn) as [(B & -> & ->) | (B & -> & ->)].
    + destruct (Nat.eqb_spec (length l mod n) j) as [E | E];
        destruct (Nat.ltb_spec j (length l mod n));
        destruct (Nat.ltb_spec j (S (length l mod n))); simpl; lia.
    + destruct (Nat.eqb_spec (length l mod n) j) as [E | E];
        destruct (Nat.ltb_spec j (length l mod n));
        destruct (Nat.ltb_spec j 0); simpl; lia.
Qed.

(** The row at position [k] is in column [k mod n], at depth [k / n]. *)
Lemma rows_of_column_position {A : Type} (n : nat) (l : list A) :
  0 < n -> forall k, k < length l ->
  nth_error (rows_of_column n (k mod n) l) (k / n) = nth_error l k.
Proof.
  intros Hn. induction l as [|x l IH] using rev_ind; intros k Hk.
  - simpl in Hk. lia.
  - rewrite length_app in Hk. simpl in Hk. rewrite rows_of_column_snoc.
    destruct (Nat.lt_ge_cases k (length l)) as [L | L].
    + rewrite (nth_error_app1 l [x] L), <- (IH k L).
      apply nth_error_app1. apply nth_error_Some. rewrite (IH k L).
      now apply nth_error_Some.
    + assert (k = length l) as -> by lia.
      assert (U : length l mod n < n) by (apply Nat.mod_upper_bound; lia).
      pose proof (rows_of_column_length n (length l mod n) l Hn U) as C.
      rewrite Nat.ltb_irrefl, Nat.add_0_r in C.
      rewrite Nat.eqb_refl.
      rewrite (nth_error_app2 l [x]) by lia.
      rewrite (nth_error_app2 (rows_of_column n (length l mod n) l)) by lia.
      rewrite C, !Nat.sub_diag. reflexivity.
Qed.

Section Grid.
Context {image : Type}.
Variable fetch : string -> image + string.
Variable warning_sign : string.
Variable bullet : string.

Lemma append_at_length j xs (cols : list (list (element image))) :
  length (append_at j xs cols) = length cols.
Proof.
  revert j. induction cols as [|c cs IH]; intros [|j]; simpl; auto.
Qed.

Lemma append_at_nth j i xs (cols : list (list (element image))) :
  i < length cols ->
  nth j (append_at i xs cols) [] =
  if j =? i then (nth j cols [] ++ xs)%list else nth j cols [].
Proof.
  revert i j. induction cols as [|c cs IH]; intros i j H; simpl in H; [lia |].
  destruct i as [|i], j as [|j]; simpl; try reflexivity.
  apply IH. lia.
Qed.

Lemma append_at_concat i xs (cols : list (list (element image))) :
  i < length cols ->
  Permutation (concat (append_at i xs cols)) (concat cols ++ xs).
Proof.
  revert i. induction cols as [|c cs IH]; intros i H; simpl in H; [lia |].
  destruct i as [|i]; simpl.
  - rewrite <- !app_assoc. apply Permutation_app_head, Permutation_app_comm.
  - rewrite (IH i) by lia. now rewrite app_assoc.
Qed.

Lemma nth_repeat_nil (n j : nat) :
  nth j (repeat (@nil (element image)) n) [] = [].
Proof. revert j. induction n as [|n IH]; intros [|j]; simpl; auto. Qed.

Lemma concat_repeat_nil (n : nat) :
  concat (repeat (@nil (element image)) n) = [].
Proof. induction n as [|n IH]; simpl; auto. Qed.

(** X9. With a positive number of columns, [grid_show] makes that many
    columns and shows every row once; column [j] holds, in table order, the
    cells of the rows at positions [j], [j + n], [j + 2n], ...; so the row
    at position [k] is in column [k mod n], at depth [k / n], and reading
    the grid line by line gives the rows in the order of the table. Without
    any column nothing is shown. *)
Theorem grid_show_layout (group_rows : DataFrame) (images_per_row : nat)
    (show_captions : bool) (caption_style : string) :
  (0 < images_per_row ->
   exists cols,
     grid_show fetch warning_sign bullet group_rows images_per_row
               show_captions caption_style = Some cols /\
     length cols = images_per_row /\
     (forall j, j < images_per_row ->
        nth j cols [] =
        flat_map (cell fetch warning_sign bullet show_captions caption_style)
                 (rows_of_column images_per_row j group_rows)) /\
     Permutation (concat cols)
       (flat_map (cell fetch warning_sign bullet show_captions caption_style)
                 group_rows) /\
     (forall k, k < length group_rows ->
        nth_error (rows_of_column images_per_row (k mod images_per_row)
                                  group_rows) (k / images_per_row)
        = nth_error group_rows k)) /\
  grid_show fetch warning_sign bullet group_rows 0 show_captions caption_style
  = None.
Proof.
  split; [| reflexivity].
  intros Hn. unfold grid_show.
  destruct (Nat.eqb_spec images_per_row 0) as [E | _]; [lia |].
  eexists. split; [reflexivity |].
  set (n := images_per_row) in *.
  set (render := cell fetch warning_sign bullet show_captions caption_style).
  set (step := fun (cols : list (list (element image))) (ir : nat * Row.t) =>
                 append_at (fst ir mod n) (render (snd ir)) cols).
  assert (G : forall l cols0, length cols0 = n ->
            length (fold_left step l cols0) = n /\
            (forall j, j < n ->
               nth j (fold_left step l cols0) [] =
               (nth j cols0 [] ++
                flat_map render
                  (map snd (filter (fun ir => fst ir mod n =? j) l)))%list) /\
            Permutation (concat (fold_left step l cols0))
                        (concat cols0 ++ flat_map render (map snd l))).
  { induction l as [|[i row] l IH]; intros cols0 L0.
    - simpl. split; [assumption |]. split.
      + intros j _. now rewrite app_nil_r.
      + now rewrite app_nil_r.
    - cbn [fold_left].
      assert (Li : i mod n < length cols0)
        by (rewrite L0; apply Nat.mod_upper_bound; lia).
      destruct (IH (step cols0 (i, row))) as (L1 & N1 & P1).
      { unfold step. now rewrite append_at_length. }
      split; [assumption |]. split.
      + intros j Hj. rewrite (N1 j Hj). unfold step at 1. cbn [fst snd].
        rewrite append_at_nth by assumption.
        cbn [filter fst]. rewrite (Nat.eqb_sym j).
        destruct (i mod n =? j); cbn [map snd flat_map];
          now rewrite <- ?app_assoc.
      + rewrite P1. unfold step at 1. cbn [fst snd map flat_map].
        rewrite append_at_concat by assumption. now rewrite <- app_assoc. }
  destruct (G (enumerate group_rows) (repeat [] n)) as (L & N & P).
  { apply repeat_length. }
  split; [exact L |]. split; [| split].
  - intros j Hj. rewrite (N j Hj), nth_repeat_nil. reflexivity.
  - rewrite P, concat_repeat_nil. simpl.
    unfold enumerate. now rewrite map_snd_seq.
  - intros k Hk. now apply rows_of_column_position.
Qed.

End Grid.

Lemma grid_show_layout_witness :
  nth_error (rows_of_column 2 (3 mod 2) gallery) (3 / 2) = nth_error gallery 3.
Proof.
  destruct (grid_show_layout (image := unit) (fun _ => inl tt) "!" "*"
              gallery 2 true "Filename") as [H _].
  destruct (H ltac:(lia)) as (cols & _ & _ & _ & _ & K).
  apply K. vm_compute. lia.
Defined.

End GridSpec.

(** ** More on [load_metadata]: what can go wrong, and what is loaded *)

Module LoadExtras.
Import Py PyFacts Doc SortFacts FrameFacts Viewer LoadSpec.

Section Load.
Context {cell : Type}.
Variable NA : cell.
Variable to_numeric : cell -> cell.
Variable astype_str : cell -> cell.
Variable full_path_of : cell -> cell.

Lemma columns_setitem_exact (key : string) (v : list cell) (df : Frame cell) :
  columns (setitem key v df) = with_column key (columns df).
Proof.
  unfold columns, setitem, with_column, mem. simpl.
  induction (cols df) as [|[c w] l IH]; simpl; [reflexivity |].
  rewrite (String.eqb_sym key c).
  destruct (String.eqb c key); simpl; [reflexivity |].
  rewrite IH. now destruct (existsb (String.eqb key) (map fst l)).
Qed.

Lemma with_column_present (key : string) (labels : list string) :
  In key labels -> with_column key labels = labels.
Proof.
  intros H. unfold with_column. now rewrite (proj2 (mem_In _ _) H).
Qed.

Lemma stringify_exact (cs : list string) :
  forall df : Frame cell,
    (forall c, In c cs -> In c (columns df)) ->
    exists df', stringify astype_str cs df = Ok df' /\
                columns df' = columns df /\ nrows df' = nrows df.
Proof.
  induction cs as [|c cs IH]; intros df H; simpl.
  - exists df. now repeat split.
  - destruct (getitem_ok c df) as (v & ->); [apply H; now left |].
    assert (E : columns (setitem c (map astype_str v) df) = columns df).
    { rewrite columns_setitem_exact. apply with_column_present, H. now left. }
    destruct (IH (setitem c (map astype_str v) df)) as (df' & -> & C & R).
    + intros x Hx. rewrite E. apply H. now right.
    + exists df'. split; [reflexivity |]. split; [congruence | exact R].
Qed.

(** The two ways in which a file with a [rel_path] label ends. *)
Lemma load_metadata_present (df : Frame cell) :
  In "rel_path" (columns df) ->
  let labels := normalized (with_column "full_path" (columns df)) in
  (set_minus required labels <> [] /\
   load_metadata NA to_numeric astype_str full_path_of df
   = Stopped (missing_columns_message (set_minus required labels)))
  \/ (set_minus required labels = [] /\
      exists df',
        load_metadata NA to_numeric astype_str full_path_of df = Loaded df' /\
        columns df' = with_column "magnification_value" labels /\
        nrows df' = nrows df).
Proof.
  intros R labels. destruct (getitem_ok "rel_path" df R) as (rel & G).
  unfold load_metadata. rewrite G.
  set (df1 := rename (fun c => lower (strip c))
                (setitem "full_path" (map full_path_of rel) df)).
  assert (C1 : columns df1 = labels).
  { subst df1 labels. now rewrite columns_rename, columns_setitem_exact. }
  rewrite C1.
  destruct (set_minus required labels) as [|m ms] eqn:M.
  2:{ left. split; [discriminate | reflexivity]. }
  right. split; [reflexivity |].
  set (df2 := if negb (mem "magnification_value" labels)
              then setitem "magnification_value" (repeat NA (nrows df1)) df1
              else df1).
  assert (C2 : columns df2 = with_column "magnification_value" labels).
  { subst df2. unfold with_column at 1.
    destruct (mem "magnification_value" labels) eqn:Q; simpl.
    - now rewrite C1.
    - rewrite columns_setitem_exact, C1. unfold with_column. now rewrite Q. }
  assert (MV : In "magnification_value" (columns df2)).
  { rewrite C2. unfold with_column.
    destruct (mem "magnification_value" labels) eqn:Q.
    - now apply mem_In.
    - apply in_or_app. right. now left. }
  unfold coerce_value. rewrite (proj2 (mem_In _ _) MV).
  destruct (getitem_ok _ _ MV) as (v & ->).
  set (df3 := setitem "magnification_value" (map to_numeric v) df2).
  assert (C3 : columns df3 = columns df2).
  { subst df3. rewrite columns_setitem_exact. now apply with_column_present. }
  destruct (stringify_exact stringified df3) as (df' & -> & C & N).
  - intros c Hc. rewrite C3, C2. unfold with_column.
    assert (I : In c labels).
    { destruct (mem c labels) eqn:Q; [now apply mem_In |]. exfalso.
      assert (X : In c (set_minus required labels)).
      { apply set_minus_In. split.
        - unfold stringified, required in *. simpl in *. tauto.
        - intros I. apply mem_In in I. congruence. }
      rewrite M in X. exact X. }
    destruct (mem "magnification_value" labels); [assumption |].
    apply in_or_app. now left.
  - exists df'. split; [reflexivity |]. split; [congruence |].
    rewrite N. subst df3 df2. simpl.
    destruct (negb (mem "magnification_value" labels)); reflexivity.
Qed.

(** X10. For a file whose labels stay distinct once normalised,
    [load_metadata] lets one exception escape, [KeyError] on [rel_path],
    and exactly when the file has no column with that very label; a file
    with that column is either loaded or stopped at the validation. *)
Theorem load_metadata_raises (df : Frame cell) (e : exn) :
  NoDup (normalized (with_column "full_path" (columns df))) ->
  (load_metadata NA to_numeric astype_str full_path_of df = Raised e <->
   e = KeyError "rel_path" /\ ~ In "rel_path" (columns df)).
Proof.
  intros _. split.
  - intros H. destruct (in_dec string_dec "rel_path" (columns df)) as [I | N].
    + destruct (load_metadata_present df I) as [(_ & S) | (_ & df' & L & _)];
        rewrite H in *; discriminate.
    + rewrite (load_metadata_needs_rel_path NA to_numeric astype_str
                 full_path_of df N) in H.
      injection H as <-. now split.
  - intros [-> N]. now apply load_metadata_needs_rel_path.
Qed.

(** X11. A loaded frame has the rows of the file, and its columns are
    those of the file in file order, their labels stripped and in lower
    case, then [full_path] and [magnification_value] where the file had
    none; every required column is among them. *)
Theorem load_metadata_loaded (df df' : Frame cell) :
  load_metadata NA to_numeric astype_str full_path_of df = Loaded df' ->
  nrows df' = nrows df /\
  columns df'
  = with_column "magnification_value"
      (normalized (with_column "full_path" (columns df))) /\
  (forall c, In c required -> In c (columns df')) /\
  In "full_path" (columns df') /\ In "magnification_value" (columns df').
Proof.
  intros H. destruct (in_dec string_dec "rel_path" (columns df)) as [I | N].
  2:{ rewrite (load_metadata_needs_rel_path NA to_numeric astype_str
                 full_path_of df N) in H. discriminate. }
  destruct (load_metadata_present df I) as [(_ & S) | (M & d & L & C & R)];
    rewrite H in *; [discriminate |].
  injection L as <-. split; [assumption |]. split; [assumption |].
  set (labels := normalized (with_column "full_path" (columns df))) in *.
  assert (W : forall x, In x labels ->
                In x (with_column "magnification_value" labels)).
  { intros x Hx. unfold with_column.
    destruct (mem "magnification_value" labels); [assumption |].
    apply in_or_app. now left. }
  rewrite C. split; [| split].
  - intros c Hc. apply W.
    destruct (mem c labels) eqn:Q; [now apply mem_In |]. exfalso.
    assert (X : In c (set_minus required labels)).
    { apply set_minus_In. split; [assumption |].
      intros J. apply mem_In in J. congruence. }
    rewrite M in X. exact X.
  - apply W. subst labels. unfold normalized.
    apply in_map_iff. exists "full_path". split; [reflexivity |].
    unfold with_column. destruct (mem "full_path" (columns df)) eqn:Q.
    + now apply mem_In.
    + apply in_or_app. right. now left.
  - unfold with_column. destruct (mem "magnification_value" labels) eqn:Q.
    + now apply mem_In.
    + apply in_or_app. right. now left.
Qed.

(** Reading a column after assignments, renaming and [astype]. *)
Lemma find_col_set_col (k key : string) (v : list cell)
    (l : list (string * list cell)) :
  find_col k (set_col key v l) =
  if String.eqb k key then Some v else find_col k l.
Proof.
  induction l as [|[c w] l IH]; simpl.
  - rewrite (String.eqb_sym key k). reflexivity.
  - destruct (String.eqb_spec c key) as [-> | N]; simpl.
    + rewrite (String.eqb_sym key k). now destruct (String.eqb k key).
    + rewrite IH. destruct (String.eqb_spec c k) as [-> | N'];
        [| reflexivity].
      destruct (String.eqb_spec k key); [contradiction | reflexivity].
Qed.

Lemma getitem_setitem (k key : string) (v : list cell) (df : Frame cell) :
  getitem k (setitem key v df) =
  if String.eqb k key then Ok v else getitem k df.
Proof.
  unfold getitem, setitem. simpl. rewrite find_col_set_col.
  now destruct (String.eqb k key).
Qed.

Lemma find_col_In (c : string) (v : list cell) (l : list (string * list cell)) :
  find_col c l = Some v -> In c (map fst l).
Proof.
  induction l as [|[c0 v0] l IH]; simpl; [discriminate |].
  destruct (String.eqb_spec c0 c); [now left | right; now apply IH].
Qed.

Lemma find_col_rename (f : string -> string) (c : string) (v : list cell)
    (l : list (string * list cell)) :
  NoDup (map f (map fst l)) -> find_col c l = Some v ->
  find_col (f c) (map (fun cv => (f (fst cv), snd cv)) l) = Some v.
Proof.
  induction l as [|[c0 v0] l IH]; simpl; [discriminate |].
  intros N H. apply NoDup_cons_iff in N as [N0 N].
  destruct (String.eqb_spec c0 c) as [-> | D].
  - now rewrite String.eqb_refl.
  - destruct (String.eqb_spec (f c0) (f c)) as [E | _]; [| now apply IH].
    exfalso. apply N0. rewrite E. apply in_map. now apply find_col_In with v.
Qed.

Lemma stringify_cells (cs : list string) :
  NoDup cs -> forall df df' : Frame cell,
  stringify astype_str cs df = Ok df' ->
  forall k, getitem k df' =
            if mem k cs
            then match getitem k df with
                 | Ok v => Ok (map astype_str v)
                 | Raise e => Raise e
                 end
            else getitem k df.
Proof.
  induction 1 as [|c cs Nc N IH]; intros df df' H k; simpl in H.
  - injection H as <-. reflexivity.
  - destruct (getitem c df) as [v|e] eqn:G; [| discriminate].
    rewrite (IH _ _ H k), getitem_setitem. unfold mem at 2. simpl.
    destruct (String.eqb_spec k c) as [-> | D].
    + assert (M : mem c cs = false).
      { destruct (mem c cs) eqn:Q; [| reflexivity].
        apply mem_In in Q. contradiction. }
      now rewrite M, G.
    + reflexivity.
Qed.

Lemma stringified_NoDup : NoDup stringified.
Proof.
  unfold stringified.
  repeat (constructor;
          [simpl; intros H;
           repeat (destruct H as [H | H]; [discriminate H |]); exact H |]).
  constructor.
Qed.

(** X12. When the labels of the file stay distinct once normalised, the
    loaded frame holds, under each normalised label, the cells of the
    file's column: made text by [astype(str)] for the eight key columns,
    made numbers by [to_numeric] for [magnification_value], untouched
    otherwise; [full_path] is computed from the cells of [rel_path] as they
    are in the file; and a [magnification_value] column that the file does
    not have is filled with the missing value. *)
Theorem load_metadata_cells (df df' : Frame cell) :
  load_metadata NA to_numeric astype_str full_path_of df = Loaded df' ->
  NoDup (normalized (with_column "full_path" (columns df))) ->
  (forall c v, c <> "full_path" -> find_col c (cols df) = Some v ->
     getitem (lower (strip c)) df'
     = Ok (map (coerced to_numeric astype_str (lower (strip c))) v)) /\
  (forall rel, getitem "rel_path" df = Ok rel ->
     getitem "full_path" df' = Ok (map full_path_of rel)) /\
  (~ In "magnification_value" (normalized (columns df)) ->
     getitem "magnification_value" df'
     = Ok (map to_numeric (repeat NA (nrows df)))).
Proof.
  intros H D.
  destruct (getitem "rel_path" df) as [rel|e] eqn:G.
  2:{ unfold load_metadata in H. rewrite G in H. discriminate. }
  unfold load_metadata in H. rewrite G in H.
  set (df1 := rename (fun c => lower (strip c))
                (setitem "full_path" (map full_path_of rel) df)) in *.
  assert (C1 : columns df1 = normalized (with_column "full_path" (columns df))).
  { subst df1. now rewrite columns_rename, columns_setitem_exact. }
  destruct (set_minus required (columns df1)) as [|m ms]; [| discriminate].
  set (df2 := if negb (mem "magnification_value" (columns df1))
              then setitem "magnification_value" (repeat NA (nrows df1)) df1
              else df1) in *.
  destruct (coerce_value to_numeric df2) as [df3|e] eqn:V; [| discriminate].
  destruct (stringify astype_str stringified df3) as [d|e] eqn:S;
    [| discriminate].
  injection H as <-.
  pose proof (stringify_cells stringified stringified_NoDup df3 d S) as K.
  (* the cells of [df1] *)
  assert (F1 : forall c v,
            find_col c (cols (setitem "full_path" (map full_path_of rel) df))
            = Some v -> getitem (lower (strip c)) df1 = Ok v).
  { intros c v Hc. unfold getitem. subst df1. unfold rename. cbn [cols].
    assert (N : NoDup (map (fun c => lower (strip c))
                (map fst (cols (setitem "full_path" (map full_path_of rel) df))))).
    { fold (columns (setitem "full_path" (map full_path_of rel) df)).
      rewrite columns_setitem_exact. exact D. }
    now rewrite (find_col_rename (fun c => lower (strip c)) c v _ N Hc). }
  (* the cells of [df3] *)
  assert (F3 : forall k, getitem k df3 =
            if String.eqb k "magnification_value"
            then match getitem k df2 with
                 | Ok v => Ok (map to_numeric v)
                 | Raise e => Raise e
                 end
            else getitem k df2).
  { intros k. unfold coerce_value in V.
    destruct (mem "magnification_value" (columns df2)) eqn:Q.
    - destruct (getitem "magnification_value" df2) as [v|e] eqn:G2;
        [| discriminate].
      injection V as <-. rewrite getitem_setitem.
      destruct (String.eqb_spec k "magnification_value") as [-> | _];
        [now rewrite G2 | reflexivity].
    - injection V as <-.
      destruct (String.eqb_spec k "magnification_value") as [-> | _];
        [| reflexivity].
      rewrite (getitem_raise NA to_numeric astype_str full_path_of
                 "magnification_value" df2); [reflexivity |].
      intros I. apply mem_In in I. congruence. }
  assert (F2 : forall k, k <> "magnification_value" ->
            getitem k df2 = getitem k df1).
  { intros k Hk. subst df2. destruct (negb _); [| reflexivity].
    rewrite getitem_setitem.
    destruct (String.eqb_spec k "magnification_value"); [contradiction |].
    reflexivity. }
  split; [| split].
  - intros c v Nc Hc.
    assert (H1 : getitem (lower (strip c)) df1 = Ok v).
    { apply F1. cbn [setitem cols]. rewrite find_col_set_col.
      destruct (String.eqb_spec c "full_path"); [contradiction | exact Hc]. }
    assert (H2 : getitem (lower (strip c)) df2 = Ok v).
    { subst df2. destruct (mem "magnification_value" (columns df1)) eqn:Q;
        simpl; [exact H1 |].
      rewrite getitem_setitem.
      destruct (String.eqb_spec (lower (strip c)) "magnification_value")
        as [E | _]; [| exact H1].
      exfalso. unfold getitem in H1.
      destruct (find_col (lower (strip c)) (cols df1)) as [w|] eqn:W;
        [| discriminate].
      apply find_col_In in W. fold (columns df1) in W. rewrite E in W.
      apply mem_In in W. congruence. }
    rewrite K, F3, H2. unfold coerced.
    destruct (mem (lower (strip c)) stringified) eqn:M.
    + destruct (String.eqb_spec (lower (strip c)) "magnification_value")
        as [E | _]; [| reflexivity].
      rewrite E in M. discriminate M.
    + destruct (String.eqb (lower (strip c)) "magnification_value");
        [reflexivity | now rewrite map_id].
  - intros r Hr. assert (r = rel) as -> by congruence.
    rewrite K, F3. simpl.
    rewrite F2 by discriminate.
    apply (F1 "full_path"). cbn [setitem cols]. rewrite find_col_set_col.
    reflexivity.
  - intros A. rewrite K, F3. simpl.
    assert (Q : mem "magnification_value" (columns df1) = false).
    { destruct (mem "magnification_value" (columns df1)) eqn:Q;
        [| reflexivity].
      exfalso. apply mem_In in Q. rewrite C1 in Q. apply A.
      unfold normalized, with_column in *.
      destruct (mem "full_path" (columns df)); [assumption |].
      rewrite map_app in Q. apply in_app_or in Q as [Q | [Q | []]];
        [assumption | discriminate Q]. }
    subst df2. rewrite Q. simpl. rewrite getitem_setitem. simpl.
    reflexivity.
Qed.


End Load.

Lemma load_metadata_raises_witness :
  load_csv csv_with_Rel_Path = Raised (KeyError "rel_path").
Proof.
  apply (load_metadata_raises "<NA>" (fun x => x) (fun x => x)
           (fun x => images_dir ++ "/" ++ x) csv_with_Rel_Path).
  - vm_compute.
    repeat (constructor;
            [simpl; intros H;
             repeat (destruct H as [H | H]; [discriminate H |]); exact H |]).
    constructor.
  - split; [reflexivity |]. vm_compute. intros H.
    repeat (destruct H as [H | H]; [discriminate H |]). exact H.
Defined.

Lemma load_metadata_loaded_witness :
  exists df',
    load_csv csv_without_value = Loaded df' /\
    columns df'
    = ["filename"; "method"; "location"; "sample"; "mode"; "magnification";
       "ext"; "rel_path"; "full_path"; "magnification_value"].
Proof.
  destruct (load_csv csv_without_value) as [df'| |] eqn:L;
    try (vm_compute in L; discriminate L).
  exists df'. split; [reflexivity |].
  exact (proj1 (proj2 (load_metadata_loaded "<NA>" (fun x => x) (fun x => x)
                         (fun x => images_dir ++ "/" ++ x)
                         csv_without_value df' L))).
Defined.

Lemma load_metadata_cells_witness :
  exists df',
    load_csv csv_without_value = Loaded df' /\
    getitem "full_path" df'
    = Ok [images_dir ++ "/" ++ "PCM_BIU_glassLube_NA_10x.jpg"].
Proof.
  destruct (load_csv csv_without_value) as [df'| |] eqn:L;
    try (vm_compute in L; discriminate L).
  exists df'. split; [reflexivity |].
  destruct (load_metadata_cells "<NA>" (fun x => x) (fun x => x)
              (fun x => images_dir ++ "/" ++ x) csv_without_value df' L)
    as (_ & F & _).
  - vm_compute.
    repeat (constructor;
            [simpl; intros H;
             repeat (destruct H as [H | H]; [discriminate H |]); exact H |]).
    constructor.
  - apply (F ["PCM_BIU_glassLube_NA_10x.jpg"]). vm_compute. reflexivity.
Defined.

End LoadExtras.

(** ** More on the viewer: the comparison view and the search box *)

Module ViewerExtras.
Import Py PyFacts Doc SortFacts FrameFacts Viewer GroupingSpec FilterSpec.

Lemma groups_rows (pinned : Row.t -> string) (choice : string)
    (group_axis : axis) (df : DataFrame) g rows r :
  In (g, rows) (groups pinned choice group_axis df) -> In r rows ->
  In r df /\ pinned r = choice /\ column group_axis r = g.
Proof.
  unfold groups. intros H Hr. apply groupby_In in H as (-> & _).
  apply filter_In in Hr as [Hr E]. apply String.eqb_eq in E.
  unfold subset in Hr. apply (Permutation_in _ (sort_values_perm _ _)) in Hr.
  apply filter_In in Hr as [Hr P]. apply String.eqb_eq in P. now repeat split.
Qed.

Lemma groups_nonempty (pinned : Row.t -> string) (choice : string)
    (group_axis : axis) (df : DataFrame) r :
  In r df -> pinned r = choice -> groups pinned choice group_axis df <> [].
Proof.
  intros Hr P. unfold groups, groupby.
  assert (I : In r (subset pinned choice group_axis df)).
  { unfold subset.
    apply (Permutation_in _ (Permutation_sym (sort_values_perm _ _))).
    apply filter_In. split; [assumption | now apply String.eqb_eq]. }
  assert (K : In (column group_axis r)
                 (distinct_sorted (column group_axis)
                    (subset pinned choice group_axis df)))
    by (apply distinct_sorted_In; now exists r).
  destruct (distinct_sorted (column group_axis)
              (subset pinned choice group_axis df)); [destruct K |].
  discriminate.
Qed.

(** X13. When the select box returns one of the options it offers, the
    comparison view of a table that is not empty shows at least one group,
    and every row shown is a row of the table that holds the chosen value
    in the pinned column and the key of its group in the grouping column.
    The chosen value is one that occurs in the table. *)
Theorem main_shows_the_choice (ui : Sidebar) (mode : view_mode)
    (group_axis : axis) (df : DataFrame) :
  df <> [] ->
  (forall label options,
     options <> [] -> In (selectbox ui label options) options) ->
  exists choice gs,
    main ui mode group_axis df = Groups gs /\
    gs <> [] /\
    (exists r, In r df /\ pinned_column mode r = choice) /\
    (forall g rows r, In (g, rows) gs -> In r rows ->
       In r df /\ pinned_column mode r = choice /\ column group_axis r = g).
Proof.
  intros N S.
  assert (O : forall col, distinct_sorted col df <> []).
  { intros col E. destruct df as [|r df]; [congruence |].
    assert (I : In (col r) (distinct_sorted col (r :: df)))
      by (apply distinct_sorted_In; exists r; split; [now left | reflexivity]).
    rewrite E in I. exact I. }
  destruct mode; unfold main.
  - destruct (distinct_sorted Row.sample df) as [|o os] eqn:E;
      [now apply O in E |].
    assert (C : In (selectbox ui "Choose a Sample to compare across" (o :: os))
                   (distinct_sorted Row.sample df))
      by (rewrite E; apply S; discriminate).
    apply distinct_sorted_In in C as (r & Hr & P).
    exists (selectbox ui "Choose a Sample to compare across" (o :: os)).
    eexists. split; [reflexivity |]. split; [| split].
    + now apply (groups_nonempty Row.sample _ group_axis df r).
    + exists r. now split.
    + intros g rows r0. exact (groups_rows Row.sample _ group_axis df g rows r0).
  - destruct (distinct_sorted Row.method df) as [|o os] eqn:E;
      [now apply O in E |].
    assert (C : In (selectbox ui "Choose a Method to compare across" (o :: os))
                   (distinct_sorted Row.method df))
      by (rewrite E; apply S; discriminate).
    apply distinct_sorted_In in C as (r & Hr & P).
    exists (selectbox ui "Choose a Method to compare across" (o :: os)).
    eexists. split; [reflexivity |]. split; [| split].
    + now apply (groups_nonempty Row.method _ group_axis df r).
    + exists r. now split.
    + intros g rows r0. exact (groups_rows Row.method _ group_axis df g rows r0).
Qed.

Lemma main_shows_the_choice_witness :
  exists choice gs,
    main (searching "") BySample Mode gallery = Groups gs /\ gs <> [] /\
    (exists r, In r gallery /\ pinned_column BySample r = choice) /\
    (forall g rows r, In (g, rows) gs -> In r rows ->
       In r gallery /\ pinned_column BySample r = choice /\ column Mode r = g).
Proof.
  apply (main_shows_the_choice (searching "") BySample Mode gallery).
  - discriminate.
  - intros label [|o os] H; [congruence | now left].
Defined.

(** X14. With every selection left at its default, a search text of
    ordinary characters keeps exactly the rows in which the text, stripped
    and in lower case, occurs in the sample or in the file name in lower
    case, in the order of the table. *)
Theorem filtered_df_plain_text (ui : Sidebar) (df : DataFrame) :
  all_chars ordinary (lower (strip (text_input ui))) = true ->
  (forall label options, multiselect ui label options = options) ->
  filtered_df ui df =
  Some (filter (fun row =>
                  is_substring (lower (strip (text_input ui)))
                               (lower (Row.sample row))
                  || is_substring (lower (strip (text_input ui)))
                                  (lower (Row.filename row))) df).
Proof.
  intros O D. unfold filtered_df.
  destruct (String.eqb_spec (strip (text_input ui)) "") as [E | _]; simpl.
  - rewrite facet_filters_identity by apply D. f_equal. symmetry.
    apply filter_all. intros r _. rewrite E.
    now destruct (lower (Row.sample r)).
  - destruct (text_mask_ordinary _ O) as (keep & -> & K).
    rewrite facet_filters_identity by apply D. f_equal.
    apply filter_ext. exact K.
Qed.

Lemma filtered_df_plain_text_witness :
  filtered_df (searching " Pol ") gallery
  = Some (filter (fun row => is_substring "pol" (lower (Row.sample row))
                             || is_substring "pol" (lower (Row.filename row)))
                 gallery).
Proof.
  apply (filtered_df_plain_text (searching " Pol ") gallery).
  - vm_compute. reflexivity.
  - reflexivity.
Defined.

(** X15. The faceted filters of [filtered_df], applied to any table (the
    table itself when the search box is blank, the rows left by the search
    otherwise), whatever the widgets return: the rows kept are exactly the
    rows whose method, location and mode are in the selections made among
    the distinct values of the table, and whose magnification is in the
    selection made among the magnifications offered, in the order of the
    table; the magnifications offered are those of the rows that pass the
    first three selections, in increasing order without repetition. *)
Theorem facet_filters_selects (ui : Sidebar) (df : DataFrame) :
  let sel_methods := multiselect ui "Method" (distinct_sorted Row.method df) in
  let sel_locations :=
    multiselect ui "Location" (distinct_sorted Row.location df) in
  let sel_modes := multiselect ui "Mode" (distinct_sorted Row.mode df) in
  let passed :=
    filter (fun row => mem (Row.method row) sel_methods
                       && mem (Row.location row) sel_locations
                       && mem (Row.mode row) sel_modes) df in
  let mags_text := distinct_sorted Row.magnification passed in
  let sel_mags_text := multiselect ui "magnification" mags_text in
  facet_filters ui df
  = filter (fun row => mem (Row.method row) sel_methods
                       && mem (Row.location row) sel_locations
                       && mem (Row.mode row) sel_modes
                       && mem (Row.magnification row) sel_mags_text) df /\
  (forall row, In row (facet_filters ui df) <->
     In row df /\
     In (Row.method row) sel_methods /\
     In (Row.location row) sel_locations /\
     In (Row.mode row) sel_modes /\
     In (Row.magnification row) sel_mags_text) /\
  (forall m, In m mags_text <->
     exists row, In row df /\
       In (Row.method row) sel_methods /\
       In (Row.location row) sel_locations /\
       In (Row.mode row) sel_modes /\
       Row.magnification row = m) /\
  StronglySorted (holds String.ltb) mags_text /\
  (strip (text_input ui) = "" -> filtered_df ui df = Some (facet_filters ui df)).
Proof.
  intros.
  assert (P : forall row, In row passed <->
            In row df /\ In (Row.method row) sel_methods /\
            In (Row.location row) sel_locations /\
            In (Row.mode row) sel_modes).
  { intros row. subst passed. rewrite filter_In, !andb_true_iff, !mem_In.
    tauto. }
  assert (E : facet_filters ui df
              = filter (fun row => mem (Row.magnification row) sel_mags_text)
                       passed) by reflexivity.
  split; [| split; [| split; [| split]]].
  - rewrite E. subst passed. rewrite filter_filter. apply filter_ext.
    intros row. reflexivity.
  - intros row. rewrite E, filter_In, P, mem_In. tauto.
  - intros m. subst mags_text. rewrite distinct_sorted_In. split.
    + intros (row & I & M). apply P in I. exists row. tauto.
    + intros (row & I & M). exists row. split; [apply P |]; tauto.
  - apply distinct_sorted_strict.
  - intros B. unfold filtered_df. now rewrite B.
Qed.

Lemma facet_filters_selects_witness :
  let ui := picking [("Method", ["PCM"]); ("magnification", ["10x"])] in
  facet_filters ui gallery
  = filter (fun row => mem (Row.method row) ["PCM"]
                       && mem (Row.location row) ["BIU"; "LAB"]
                       && mem (Row.mode row) ["NA"; "POL"]
                       && mem (Row.magnification row) ["10x"]) gallery /\
  filtered_df ui gallery
  = Some [image "PCM" "BIU" "foo" "POL" "10x" (Some (10 # 1)%Q)].
Proof.
  intros ui.
  destruct (facet_filters_selects ui gallery) as (F & _ & _ & _ & B).
  split; [exact F |]. rewrite (B eq_refl). vm_compute. reflexivity.
Defined.

End ViewerExtras.

(** ** The numeric magnification of a parsed record *)

Module MagnificationSpec.
Import Py PyFacts Re Doc ReFacts MagnificationFacts ParserSpec MakeMetadata.

(** A text of the document's grammar is matched by the document's
    pattern. *)
Lemma claimed_grammar_matched (tmp g : string) :
  claimed_grammar tmp g -> exists m, match_anchored claimed_re tmp = Some m.
Proof.
  intros (w1 & x & w3 & -> & H1 & Hg & Hx & H3).
  destruct (mag_number_matches g [] Hg) as (c1 & Mg).
  unfold match_anchored.
  rewrite <- (append_nil_r (w1 ++ g ++ x ++ w3)).
  apply (run_complete claimed_re _ [] ((1, g) :: c1)) with (a := (1, g) :: c1).
  - apply MCat with []; [now apply star_class_matches |].
    apply MCat with ((1, g) :: c1); [now constructor |].
    apply MCat with ((1, g) :: c1); [| now apply star_class_matches].
    destruct Hx as [-> | [-> | ->]].
    + apply MAltR. constructor.
    + apply MAltL. now constructor.
    + apply MAltL. now constructor.
  - reflexivity.
Qed.

(** C3 as stated does not hold: the file [A_B_C_D_10 x.jpg] is parsed with
    the value 10, although its raw magnification [10 x], with whitespace
    between the literal and the [x], is not a text of the stated
    grammar. *)
Lemma magnification_not_as_stated :
  ~ (forall name rec, parse_filename name = Ok rec ->
       forall v, Rec.magnification_value rec = Some v <->
         exists g, claimed_grammar (replace "_" "." (Rec.magnification rec)) g
                   /\ float_of_str g = Some v).
Proof.
  intros H.
  assert (P : parse_filename "A_B_C_D_10 x.jpg"
              = Ok (Rec.mk "A" "B" "C" "D" "10 x" (Some (10 # 1)%Q) ".jpg"))
    by (vm_compute; reflexivity).
  destruct (proj1 (H _ _ P (10 # 1)%Q) eq_refl) as (g & G & _).
  change (claimed_grammar "10 x" g) in G.
  apply claimed_grammar_matched in G as (m & M).
  vm_compute in M. discriminate M.
Qed.

(** No parsed record has a raw magnification with a separator in it: the
    file [PCM_BIU_foo_NA_10_5x.jpg] has mode [10] and magnification [5x]. *)
Example separator_splits_magnification :
  parse_filename "PCM_BIU_foo_NA_10_5x.jpg"
  = Ok (Rec.mk "PCM" "BIU" "foo_NA" "10" "5x" (Some (5 # 1)%Q) ".jpg")
  /\ forall name rec, parse_filename name = Ok rec ->
       Rec.magnification rec <> "10_5x".
Proof.
  split; [vm_compute; reflexivity |].
  intros name rec P E. apply raw_magnification_separator_free in P.
  rewrite E in P. discriminate P.
Qed.

(** C3, amended. The numeric magnification of a parsed record is computed
    from the raw magnification token, in which replacing separators by
    dots changes nothing since a token holds no separator: the value is
    present exactly when the token is optional whitespace, a numeric
    literal, optional whitespace, an optional [x] or [X], optional
    whitespace and nothing else, and it is then the value of the literal;
    otherwise it is absent, the raw text is kept, and the record is
    produced all the same. The tokens [10x], [10X] and [10 x] give 10, and
    [NA] gives no value. *)
Theorem parse_filename_magnification :
  (forall name rec, parse_filename name = Ok rec ->
     let raw := Rec.magnification rec in
     nth_error (tokens name) (len (tokens name) - 1) = Some raw /\
     replace "_" "." raw = raw /\
     (forall v, Rec.magnification_value rec = Some v <->
        exists g, mag_grammar (replace "_" "." raw) g /\ float_of_str g = Some v) /\
     (Rec.magnification_value rec = None <->
        ~ exists g, mag_grammar (replace "_" "." raw) g)) /\
  (forall name, 5 <= len (tokens name) -> exists rec, parse_filename name = Ok rec) /\
  parse_filename "PCM_BIU_glassLube_NA_10x.jpg"
    = Ok (Rec.mk "PCM" "BIU" "glassLube" "NA" "10x" (Some (10 # 1)%Q) ".jpg") /\
  parse_filename "PCM_BIU_glassLube_NA_10X.jpg"
    = Ok (Rec.mk "PCM" "BIU" "glassLube" "NA" "10X" (Some (10 # 1)%Q) ".jpg") /\
  parse_filename "A_B_C_D_10 x.jpg"
    = Ok (Rec.mk "A" "B" "C" "D" "10 x" (Some (10 # 1)%Q) ".jpg") /\
  parse_filename "PCM_BIU_glassLube_POL_NA.jpg"
    = Ok (Rec.mk "PCM" "BIU" "glassLube" "POL" "NA" None ".jpg").
Proof.
  split; [| split; [| repeat split; vm_compute; reflexivity]].
  - intros name rec P raw.
    pose proof (raw_magnification_separator_free name rec P) as R.
    assert (H : 5 <= len (tokens name)).
    { destruct (Nat.lt_ge_cases (len (tokens name)) 5) as [L | L]; [| assumption].
      rewrite (parse_filename_raise name L) in P. discriminate. }
    rewrite (parse_filename_ok name H) in P. subst raw. injection P as <-.
    cbn [Rec.magnification Rec.magnification_value] in *.
    split; [apply item_back_nth_error; lia |].
    split; [exact R |].
    split; [intros v; apply mag_value_of_some | apply mag_value_of_none].
  - intros name H. eexists. now apply parse_filename_ok.
Qed.

Lemma parse_filename_magnification_witness :
  (exists g, mag_grammar (replace "_" "." "10 x") g
             /\ float_of_str g = Some (10 # 1)%Q)
  /\ exists rec, parse_filename "A_B_C_D_10 x.jpg" = Ok rec.
Proof.
  destruct parse_filename_magnification as (H1 & H2 & _).
  assert (P : parse_filename "A_B_C_D_10 x.jpg"
              = Ok (Rec.mk "A" "B" "C" "D" "10 x" (Some (10 # 1)%Q) ".jpg"))
    by (vm_compute; reflexivity).
  split.
  - exact (proj1 (proj1 (proj2 (proj2 (H1 _ _ P))) (10 # 1)%Q) eq_refl).
  - apply (H2 "A_B_C_D_10 x.jpg"). vm_compute. lia.
Defined.

End MagnificationSpec.

(** ** The validation of [load_metadata] *)

Module LoadContract.
Import Py PyFacts Doc SortFacts FrameFacts Viewer LoadSpec LoadExtras.

Section Load.
Context {cell : Type}.
Variable NA : cell.
Variable to_numeric : cell -> cell.
Variable astype_str : cell -> cell.
Variable full_path_of : cell -> cell.

(** The labels that the validation sees: those of the file, normalised,
    and [full_path]. *)
Lemma validated_labels (labels : list string) (x : string) :
  In x (normalized (with_column "full_path" labels)) <->
  In x (normalized labels) \/ x = "full_path".
Proof.
  unfold normalized, with_column.
  destruct (mem "full_path" labels) eqn:Q.
  - split; [now left |]. intros [H | ->]; [assumption |].
    apply in_map_iff. exists "full_path". split; [reflexivity |].
    now apply mem_In.
  - rewrite map_app, in_app_iff. simpl. split.
    + intros [H | [H | []]]; [now left | right; now rewrite <- H].
    + intros [H | ->]; [now left | right; now left].
Qed.

(** The column added for a file without [magnification_value]. *)
Lemma loaded_value_filled (df df' : Frame cell) :
  load_metadata NA to_numeric astype_str full_path_of df = Loaded df' ->
  ~ In "magnification_value" (normalized (columns df)) ->
  getitem "magnification_value" df'
  = Ok (map to_numeric (repeat NA (nrows df))).
Proof.
  intros H A. unfold load_metadata in H.
  destruct (getitem "rel_path" df) as [rel|e]; [| discriminate].
  set (df1 := rename (fun c => lower (strip c))
                (setitem "full_path" (map full_path_of rel) df)) in *.
  assert (C1 : columns df1 = normalized (with_column "full_path" (columns df))).
  { subst df1. now rewrite columns_rename, columns_setitem_exact. }
  destruct (set_minus required (columns df1)) as [|m ms]; [| discriminate].
  assert (Q : mem "magnification_value" (columns df1) = false).
  { destruct (mem "magnification_value" (columns df1)) eqn:Q; [| reflexivity].
    exfalso. apply mem_In in Q. rewrite C1 in Q.
    apply validated_labels in Q as [Q | Q]; [now apply A | discriminate Q]. }
  rewrite Q in H. cbn [negb] in H.
  set (df2 := setitem "magnification_value" (repeat NA (nrows df1)) df1) in *.
  assert (G2 : getitem "magnification_value" df2 = Ok (repeat NA (nrows df1)))
    by (subst df2; now rewrite getitem_setitem).
  unfold coerce_value in H.
  assert (M2 : mem "magnification_value" (columns df2) = true).
  { apply mem_In. subst df2. rewrite columns_setitem_exact.
    unfold with_column. rewrite Q. apply in_or_app. right. now left. }
  rewrite M2, G2 in H.
  destruct (stringify astype_str stringified _) as [d|e] eqn:S;
    [| discriminate].
  injection H as <-.
  rewrite (stringify_cells astype_str stringified stringified_NoDup _ d S).
  simpl. rewrite getitem_setitem. reflexivity.
Qed.

(** C8, amended. For a file that has a [rel_path] column and whose labels
    are distinct, as [pd.read_csv] yields them: when one of the required
    columns is absent, labels being compared after stripping and
    lowercasing, [load_metadata] stops with the message that lists the
    absent required columns, and returns no frame. When none is absent and
    the labels stay distinct once normalised, the frame is loaded with its
    rows; [magnification_value] is not required: a file without it is
    loaded too, and the column is added with the missing value in every
    row, passed through [pd.to_numeric] like the cells of a file that has
    the column. *)
Theorem load_metadata_required (df : Frame cell) :
  In "rel_path" (columns df) ->
  NoDup (columns df) ->
  (forall c, In c required -> ~ In c (normalized (columns df)) ->
     exists missing,
       load_metadata NA to_numeric astype_str full_path_of df
       = Stopped (missing_columns_message missing) /\
       In c missing /\
       forall x, In x missing <->
                 In x required /\ ~ In x (normalized (columns df))) /\
  (NoDup (normalized (with_column "full_path" (columns df))) ->
   (forall c, In c required -> In c (normalized (columns df))) ->
     exists df',
       load_metadata NA to_numeric astype_str full_path_of df = Loaded df' /\
       nrows df' = nrows df /\
       In "magnification_value" (columns df') /\
       (~ In "magnification_value" (normalized (columns df)) ->
        getitem "magnification_value" df'
        = Ok (map to_numeric (repeat NA (nrows df))))).
Proof.
  intros R _.
  set (labels := normalized (with_column "full_path" (columns df))).
  assert (M : forall x, In x (set_minus required labels) <->
                In x required /\ ~ In x (normalized (columns df))).
  { intros x. rewrite set_minus_In. subst labels. split; intros [Hx N].
    - split; [assumption |]. intros I. apply N, validated_labels. now left.
    - split; [assumption |]. intros I. apply validated_labels in I as [I | I].
      + now apply N.
      + now apply (required_not_full_path x Hx). }
  pose proof (load_metadata_present NA to_numeric astype_str full_path_of df R)
    as P.
  cbv zeta in P. fold labels in P.
  destruct P as [(N & S) | (E & df' & L & C & W)].
  - split.
    + intros c Hc Nc. exists (set_minus required labels).
      split; [exact S |]. split; [| exact M]. apply M. now split.
    + intros _ All. exfalso.
      destruct (set_minus required labels) as [|m ms] eqn:Q; [congruence |].
      destruct (proj1 (M m) (or_introl eq_refl)) as [Hm Nm]. now apply Nm, All.
  - split.
    + intros c Hc Nc. exfalso.
      assert (I : In c (set_minus required labels)) by (apply M; now split).
      rewrite E in I. exact I.
    + intros _ _. exists df'. split; [exact L |]. split; [exact W |]. split.
      * rewrite C. unfold with_column.
        destruct (mem "magnification_value" labels) eqn:Q.
        -- now apply mem_In.
        -- apply in_or_app. right. now left.
      * intros A. now apply loaded_value_filled.
Qed.

End Load.

Lemma load_metadata_required_witness :
  (exists missing,
     load_csv csv_without_method = Stopped (missing_columns_message missing) /\
     In "method" missing) /\
  exists df',
    load_csv csv_without_value = Loaded df' /\
    getitem "magnification_value" df' = Ok ["<NA>"].
Proof.
  split.
  - destruct (load_metadata_required "<NA>" (fun x => x) (fun x => x)
                (fun x => images_dir ++ "/" ++ x) csv_without_method)
      as [H _].
    + vm_compute. tauto.
    + vm_compute.
      repeat (constructor;
              [simpl; intros H;
               repeat (destruct H as [H | H]; [discriminate H |]); exact H |]).
      constructor.
    + destruct (H "method") as (missing & L & I & _).
      * vm_compute. tauto.
      * vm_compute. intros H0.
        repeat (destruct H0 as [H0 | H0]; [discriminate H0 |]). exact H0.
      * exists missing. now split.
  - destruct (load_metadata_required "<NA>" (fun x => x) (fun x => x)
                (fun x => images_dir ++ "/" ++ x) csv_without_value)
      as [_ H].
    + vm_compute. tauto.
    + vm_compute.
      repeat (constructor;
              [simpl; intros H;
               repeat (destruct H as [H | H]; [discriminate H |]); exact H |]).
      constructor.
    + destruct H as (df' & L & _ & _ & V).
      * vm_compute.
        repeat (constructor;
                [simpl; intros H;
                 repeat (destruct H as [H | H]; [discriminate H |]); exact H |]).
        constructor.
      * vm_compute. tauto.
      * exists df'. split; [exact L |]. apply V. vm_compute. intros H.
        repeat (destruct H as [H | H]; [discriminate H |]). exact H.
Defined.

End LoadContract.
